(** * dockerstats: the collection engine and its metric derivations

    A shallow embedding of package [dockerstats]: the derivation functions [calcCPUPercent], [calcBlockIO], [calcNetwork],
    [calcMemUsageNoCache], [calcMemPercentNoCache], the snapshot decoder
    [getStats], the label enricher [getLabels] and the fan-out/fan-in of
    [List].

    - [uint64] counters are integers in [Z]; the wrap-around of Go's unsigned
      arithmetic is written out ([uint64_add], [uint64_sub]).
    - [float64] is IEEE 754 binary64, given by the executable specification
      [SpecFloat] of the standard library at precision 53 and [emax] 1024;
      every operation rounds to nearest, ties to even, as Go's does.
    - Go maps are [gmap]s.  A [range] loop visits the entries of a map in an
      order Go leaves unspecified: the order is a parameter ([MapRange]).
    - The Docker client, the JSON decoder and the process-level effects
      (channel sends, warnings, panics, [Fatalf]) are explicit: a goroutine is
      a value of [Go A], the events it emits followed by how it ends. *)

From Stdlib Require Import ZArith Lia Ascii String.
From Stdlib Require Import Floats.SpecFloat.
From stdpp Require Import gmap strings list fin_maps.

Local Open Scope Z_scope.

(** ** float64 *)

Module Float64.

Definition prec : Z := 53.
Definition emax : Z := 1024.

Definition float64 : Type := spec_float.

(** Conversion of an integer, [float64(z)]: the nearest binary64 value. *)
Definition of_Z (z : Z) : float64 := binary_normalize prec emax z 0 false.

Definition add : float64 → float64 → float64 := SFadd prec emax.
Definition sub : float64 → float64 → float64 := SFsub prec emax.
Definition mul : float64 → float64 → float64 := SFmul prec emax.
Definition div : float64 → float64 → float64 := SFdiv prec emax.

(** Go's [==], [<] and [<=] on floats: all false on a NaN. *)
Definition eqb : float64 → float64 → bool := SFeqb.
Definition ltb : float64 → float64 → bool := SFltb.
Definition leb : float64 → float64 → bool := SFleb.

(** The zero value of a [float64] variable, [+0]. *)
Definition zero : float64 := S754_zero false.

Definition is_nan (x : float64) : bool :=
  match x with S754_nan => true | _ => false end.

Definition is_finite (x : float64) : bool :=
  match x with S754_zero _ | S754_finite _ _ _ => true | _ => false end.

(** The 53-bit mantissa of the positive integer [p < 2^53]. *)
Definition canonical_mant (p : positive) : positive :=
  Z.to_pos (Zpos p * 2 ^ (53 - Zpos (digits2_pos p))).

End Float64.

Abbreviation float64 := Float64.float64.

(** ** uint64 *)

Definition uint64_modulus : Z := 2 ^ 64.

Definition is_uint64 (z : Z) : bool := (0 <=? z) && (z <? uint64_modulus).
Definition is_uint32 (z : Z) : bool := (0 <=? z) && (z <? 2 ^ 32).

Definition uint64_add (a b : Z) : Z := (a + b) mod uint64_modulus.
Definition uint64_sub (a b : Z) : Z := (a - b) mod uint64_modulus.

(** [float64(x)] for an integer [x]. *)
Definition float64_of_uint64 (x : Z) : float64 := Float64.of_Z x.
Definition float64_of_int (n : nat) : float64 := Float64.of_Z (Z.of_nat n).

(** Sum of a field over a list, in [Z] (no wrap-around). *)
Definition sum_with {A} (f : A → Z) (l : list A) : Z := foldr (λ x s, f x + s) 0 l.

(** ** The order of a [range] loop over a map *)

Class MapRange := {
  range : ∀ {V : Type}, gmap string V → list (string * V);
  range_perm : ∀ (V : Type) (m : gmap string V), range m ≡ₚ map_to_list m
}.

(** Two possible orders, one the reverse of the other. *)
Definition range_forward : MapRange :=
  {| range := λ V m, map_to_list m;
     range_perm := λ V m, reflexivity (map_to_list m) |}.

Definition range_backward : MapRange :=
  {| range := λ V m, reverse (map_to_list m);
     range_perm := λ V m, reverse_Permutation (map_to_list m) |}.

(** ** The Docker API types the engine reads

    The declarations live in [github.com/docker/docker/api/types]; only the
    fields the engine touches are kept.  Counters are [uint64], [OnlineCPUs]
    is [uint32]; a pointer or interface that may be nil is an [option]. *)

Definition error : Type := string.

Record cpu_usage := {
  TotalUsage : Z;
  PercpuUsage : list Z
}.

Record cpu_stats := {
  CPUUsage : cpu_usage;
  SystemUsage : Z;
  OnlineCPUs : Z
}.

Record blkio_stat_entry := {
  Op : string;
  Value : Z
}.

Record blkio_stats := {
  IoServiceBytesRecursive : list blkio_stat_entry
}.

Record memory_stats := {
  Usage : Z;
  Stats : gmap string Z;
  Limit : Z
}.

Record network_stats := {
  RxBytes : Z;
  TxBytes : Z
}.

Record stats_json := {
  ID : string;
  Name : string;
  CPUStats : cpu_stats;
  PreCPUStats : cpu_stats;
  MemoryStats : memory_stats;
  BlkioStats : blkio_stats;
  Networks : gmap string network_stats
}.

(** [io.ReadCloser]: what [ioutil.ReadAll] obtains from it. *)
Record reader := {
  content : string;
  read_error : option error
}.

(** [types.ContainerStats]. *)
Record container_stats := {
  Body : option reader;
  OSType : string
}.

Record container_config := {
  Labels : gmap string string
}.

(** [types.ContainerJSON]; [Config] is a pointer. *)
Record container_json := {
  Config : option container_config
}.

Record container := {
  Container_ID : string
}.

(** The collaborators of the engine: the calls on [e.dc], the client
    constructor and the JSON decoder.  A Go call returning [(x, err)] is a
    pair whose second component is [None] for a nil error. *)
Record Docker := {
  ContainerList : list container * option error;
  ContainerStats : string → container_stats * option error;
  ContainerInspect : string → container_json * option error;
  NewClientWithOpts : option error;
  json_Unmarshal : string → option stats_json * option error
}.

(** ** StatsEntry *)

Record StatsEntry := {
  ContainerID : string;
  ContainerName : string;
  CPUPercentage : float64;
  Memory : float64;
  MemoryPercentage : float64;
  MemoryLimit : float64;
  NetworkRx : float64;
  NetworkTx : float64;
  BlockRead : float64;
  BlockWrite : float64;
  (* the field [KubernetesLabels]; [None] is the nil map *)
  EntryLabels : option (gmap string string)
}.

(** [&StatsEntry{}]. *)
Definition emptyEntry : StatsEntry :=
  {| ContainerID := ""; ContainerName := "";
     CPUPercentage := Float64.zero; Memory := Float64.zero;
     MemoryPercentage := Float64.zero; MemoryLimit := Float64.zero;
     NetworkRx := Float64.zero; NetworkTx := Float64.zero;
     BlockRead := Float64.zero; BlockWrite := Float64.zero;
     EntryLabels := None |}.

(** [stats.KubernetesLabels = labels]. *)
Definition set_labels (stats : StatsEntry) (labels : gmap string string) : StatsEntry :=
  {| ContainerID := ContainerID stats; ContainerName := ContainerName stats;
     CPUPercentage := CPUPercentage stats; Memory := Memory stats;
     MemoryPercentage := MemoryPercentage stats; MemoryLimit := MemoryLimit stats;
     NetworkRx := NetworkRx stats; NetworkTx := NetworkTx stats;
     BlockRead := BlockRead stats; BlockWrite := BlockWrite stats;
     EntryLabels := Some labels |}.

(** The vocabulary injected by Kubernetes into the Docker labels. *)
Definition KubernetesLabels : gmap string string :=
  list_to_map
    [ ("io.kubernetes.pod.namespace", "kubernetes_pod_namespace");
      ("io.kubernetes.pod.name", "kubernetes_pod_name");
      ("io.kubernetes.container.name", "kubernetes_container_name") ].

(** [m[k]] on a [map[string]string]: the empty string when [k] is absent. *)
Definition string_at (m : gmap string string) (k : string) : string :=
  default "" (m !! k).

(** [m[k]] on a [map[string]uint64]: 0 when [k] is absent. *)
Definition uint64_at (m : gmap string Z) (k : string) : Z :=
  default 0 (m !! k).

(** ** Goroutines: events and endings *)

Inductive event :=
  | Send (s : StatsEntry)          (* ch <- s *)
  | Warn (err : error)             (* logrus.Warnf *)
  | SetClient                      (* e.dc = newDockerClient(...) *)
  | Sleep (ms : Z).                (* time.Sleep *)

Inductive ending (A : Type) :=
  | Done (a : A)
  | Panicked                       (* nil dereference: the process dies *)
  | Exited.                        (* logrus.Fatalf *)
Arguments Done {A} a.
Arguments Panicked {A}.
Arguments Exited {A}.

Record Go (A : Type) := Run {
  events : list event;
  outcome : ending A
}.
Arguments Run {A} events outcome.
Arguments events {A} g.
Arguments outcome {A} g.

#[global] Instance Go_ret : MRet Go := λ A a, Run [] (Done a).

#[global] Instance Go_bind : MBind Go := λ A B f m,
  match outcome m with
  | Done a => Run (events m ++ events (f a)) (outcome (f a))
  | Panicked => Run (events m) Panicked
  | Exited => Run (events m) Exited
  end.

Definition emit (ev : event) : Go unit := Run [ev] (Done tt).
Definition panic {A} : Go A := Run [] Panicked.
Definition fatal {A} : Go A := Run [] Exited.

(** Reading through a pointer or calling through an interface. *)
Definition deref {A} (p : option A) : Go A :=
  match p with Some a => mret a | None => panic end.

Definition when_err (err : option error) (k : error → Go unit) : Go unit :=
  match err with Some e => k e | None => mret tt end.

Definition completes {A} (g : Go A) : bool :=
  match outcome g with Done _ => true | _ => false end.

(** The entries a goroutine puts on the channel, in order. *)
Definition sent {A} (g : Go A) : list StatsEntry :=
  omap (λ ev, match ev with Send s => Some s | _ => None end) (events g).

(** What [if err != nil { ch <- empty }] puts on the channel. *)
Definition placeholder (err : option error) : list StatsEntry :=
  match err with Some _ => [emptyEntry] | None => [] end.

(** ** Metric derivation *)

Definition calcCPUPercent (prevCPU prevSystem : Z) (v : stats_json) : float64 :=
  let cpuPercent := Float64.zero in
  let cpuDelta :=
    Float64.sub (float64_of_uint64 (TotalUsage (CPUUsage (CPUStats v))))
                (float64_of_uint64 prevCPU) in
  let systemDelta :=
    Float64.sub (float64_of_uint64 (SystemUsage (CPUStats v)))
                (float64_of_uint64 prevSystem) in
  let onlineCPUs := float64_of_uint64 (OnlineCPUs (CPUStats v)) in
  let onlineCPUs :=
    if Float64.eqb onlineCPUs Float64.zero
    then float64_of_int (length (PercpuUsage (CPUUsage (CPUStats v))))
    else onlineCPUs in
  if Float64.ltb Float64.zero systemDelta && Float64.ltb Float64.zero cpuDelta
  then Float64.mul (Float64.mul (Float64.div cpuDelta systemDelta) onlineCPUs)
                   (Float64.of_Z 100)
  else cpuPercent.

(** One iteration of the loop of [calcBlockIO]. *)
Definition calcBlockIO_step (acc : Z * Z) (bioEntry : blkio_stat_entry) : Z * Z :=
  let '(blkRead, blkWrite) := acc in
  match Op bioEntry with
  | EmptyString => (blkRead, blkWrite)
  | String c _ =>
      if bool_decide (c = "r"%char ∨ c = "R"%char)
      then (uint64_add blkRead (Value bioEntry), blkWrite)
      else if bool_decide (c = "w"%char ∨ c = "W"%char)
      then (blkRead, uint64_add blkWrite (Value bioEntry))
      else (blkRead, blkWrite)
  end.

Definition calcBlockIO (blkio : blkio_stats) : float64 * float64 :=
  let '(blkRead, blkWrite) :=
    foldl calcBlockIO_step (0, 0) (IoServiceBytesRecursive blkio) in
  (float64_of_uint64 blkRead, float64_of_uint64 blkWrite).

Definition calcNetwork_step (acc : float64 * float64) (kv : string * network_stats)
    : float64 * float64 :=
  let '(rx, tx) := acc in
  (Float64.add rx (float64_of_uint64 (RxBytes kv.2)),
   Float64.add tx (float64_of_uint64 (TxBytes kv.2))).

Definition calcNetwork `{MapRange} (network : gmap string network_stats)
    : float64 * float64 :=
  foldl calcNetwork_step (Float64.zero, Float64.zero) (range network).

Definition calcMemUsageNoCache (mem : memory_stats) : float64 :=
  float64_of_uint64 (uint64_sub (Usage mem) (uint64_at (Stats mem) "cache")).

Definition calcMemPercentNoCache (limit usedNoCache : float64) : float64 :=
  if negb (Float64.eqb limit Float64.zero)
  then Float64.mul (Float64.div usedNoCache limit) (Float64.of_Z 100)
  else Float64.zero.

(** ** The engine *)

Section Exporter.
Context (dc : Docker) `{MapRange}.

Definition newDockerClient : Go unit :=
  match NewClientWithOpts dc with
  | Some _ => fatal
  | None => mret tt
  end.

Definition getLabels_step (labels : gmap string string) (kv : string * string)
    : gmap string string :=
  if bool_decide (string_at KubernetesLabels kv.1 ≠ "")
  then <[string_at KubernetesLabels kv.1 := kv.2]> labels
  else labels.

Definition getLabels (stats : StatsEntry) : Go StatsEntry :=
  let '(info, err) := ContainerInspect dc (ContainerID stats) in
  when_err err (λ e,
    newDockerClient ;; emit SetClient ;; emit (Sleep 200) ;; emit (Warn e)) ;;
  config ← deref (Config info) ;
  let labels := foldl getLabels_step ∅ (range (Labels config)) in
  mret (set_labels stats labels).

Definition getStats (response : container_stats) : Go (StatsEntry * option error) :=
  body ← deref (Body response) ;
  match read_error body with
  | Some err => mret (emptyEntry, Some err)
  | None =>
    let '(v, err) := json_Unmarshal dc (content body) in
    match err with
    | Some err => mret (emptyEntry, Some err)
    | None =>
      v ← deref v ;
      let '(cpuPercent, (blkRead, blkWrite), mem, memLimit, memPercent) :=
        if bool_decide (OSType response ≠ "windows") then
          let prevCPU := TotalUsage (CPUUsage (PreCPUStats v)) in
          let prevSystem := SystemUsage (PreCPUStats v) in
          let cpuPercent := calcCPUPercent prevCPU prevSystem v in
          let blk := calcBlockIO (BlkioStats v) in
          let mem := calcMemUsageNoCache (MemoryStats v) in
          let memLimit := float64_of_uint64 (Limit (MemoryStats v)) in
          let memPercent := calcMemPercentNoCache memLimit mem in
          (cpuPercent, blk, mem, memLimit, memPercent)
        else
          (Float64.zero, (Float64.zero, Float64.zero),
           Float64.zero, Float64.zero, Float64.zero) in
      let '(netRx, netTx) := calcNetwork (Networks v) in
      mret ({| ContainerID := ID v; ContainerName := Name v;
               CPUPercentage := cpuPercent; Memory := mem;
               MemoryPercentage := memPercent; MemoryLimit := memLimit;
               NetworkRx := netRx; NetworkTx := netTx;
               BlockRead := blkRead; BlockWrite := blkWrite;
               EntryLabels := None |}, None)
    end
  end.

(** The goroutine [List] starts for one container. *)
Definition worker (containerID : string) : Go unit :=
  let '(resp, err) := ContainerStats dc containerID in
  when_err err (λ _, emit (Send emptyEntry)) ;;
  '(s, err) ← getStats resp ;
  when_err err (λ _, emit (Send emptyEntry)) ;;
  s ← getLabels s ;
  emit (Send s).

Definition workers (containers : list container) : list (Go unit) :=
  (λ c, worker (Container_ID c)) <$> containers.

(** The collector appends what it receives: some interleaving of the
    sequences the workers send. *)
Inductive interleaving {A} : list (list A) → list A → Prop :=
  | interleaving_done ls :
      Forall (λ l, l = []) ls → interleaving ls []
  | interleaving_next i x l ls out :
      ls !! i = Some (x :: l) →
      interleaving (<[i := l]> ls) out →
      interleaving ls (x :: out).

(** [List] returns [(stats, err)]. *)
Inductive List_returns : list StatsEntry → option error → Prop :=
  | List_listing_failed containers err :
      ContainerList dc = (containers, Some err) →
      List_returns [] (Some err)
  | List_collected containers stats :
      ContainerList dc = (containers, None) →
      Forall (λ w, completes w = true) (workers containers) →
      interleaving (sent <$> workers containers) stats →
      List_returns stats None.

(** A worker panics or exits: the process dies and [List] never returns. *)
Definition List_crashes : Prop :=
  ∃ containers, ContainerList dc = (containers, None) ∧
    Exists (λ w, completes w = false) (workers containers).

(** The schedule in which the workers run one after the other. *)
Definition List_in_turn : option (list StatsEntry * option error) :=
  match ContainerList dc with
  | (_, Some err) => Some ([], Some err)
  | (containers, None) =>
      if forallb completes (workers containers)
      then Some (concat (sent <$> workers containers), None)
      else None
  end.

End Exporter.


(** ** Reference definitions for the derived quantities *)

(** An operation code whose first byte is [lower] or [upper]. *)
Definition starts_with (lower upper : ascii) (op : string) : bool :=
  match op with
  | EmptyString => false
  | String c _ => bool_decide (c = lower ∨ c = upper)
  end.

Definition is_read_op (op : string) : bool := starts_with "r" "R" op.
Definition is_write_op (op : string) : bool := starts_with "w" "W" op.

(** What an entry adds to a total: its value if it is counted, else 0. *)
Definition counted (b : bool) (v : Z) : Z := if b then v else 0.

(** Exact totals of [Value] over the read and the write entries. *)
Definition read_total (entries : list blkio_stat_entry) : Z :=
  sum_with Value (filter (λ e, is_read_op (Op e)) entries).
Definition write_total (entries : list blkio_stat_entry) : Z :=
  sum_with Value (filter (λ e, is_write_op (Op e)) entries).

(** Exact totals over the interfaces of a network mapping. *)
Definition rx_total (network : gmap string network_stats) : Z :=
  sum_with (λ kv, RxBytes kv.2) (map_to_list network).
Definition tx_total (network : gmap string network_stats) : Z :=
  sum_with (λ kv, TxBytes kv.2) (map_to_list network).

(** The label carried over for one vocabulary entry. *)
Definition from_key (labels : gmap string string) (k name : string)
    : gmap string string :=
  match labels !! k with
  | Some v => {[ name := v ]}
  | None => ∅
  end.

(** The projection of a label mapping through the three-key vocabulary. *)
Definition kube_projection (labels : gmap string string) : gmap string string :=
  from_key labels "io.kubernetes.pod.namespace" "kubernetes_pod_namespace"
  ∪ from_key labels "io.kubernetes.pod.name" "kubernetes_pod_name"
  ∪ from_key labels "io.kubernetes.container.name" "kubernetes_container_name".

(** The vocabulary key that yields the output name [name]. *)
Definition source_key (name : string) : option string :=
  if decide (name = "kubernetes_pod_namespace") then Some "io.kubernetes.pod.namespace"
  else if decide (name = "kubernetes_pod_name") then Some "io.kubernetes.pod.name"
  else if decide (name = "kubernetes_container_name") then Some "io.kubernetes.container.name"
  else None.

(** The stats fetch of a container failed, or its snapshot could not be
    derived. *)
Definition worker_fails (dc : Docker) `{MapRange} (containerID : string) : Prop :=
  (ContainerStats dc containerID).2 ≠ None ∨
  ∃ s err, outcome (getStats dc (ContainerStats dc containerID).1) = Done (s, Some err).

(** The stats fetch, the derivation and the inspection of a container all
    succeed. *)
Definition worker_succeeds (dc : Docker) `{MapRange} (containerID : string) : Prop :=
  (ContainerStats dc containerID).2 = None ∧
  ∃ s s', outcome (getStats dc (ContainerStats dc containerID).1) = Done (s, None)
          ∧ outcome (getLabels dc s) = Done s'.

(** What the Docker client does on the two calls of a worker: a failed
    [ContainerStats] returns the zero response, whose [Body] is nil, with the
    error; and [ContainerInspect] refuses the empty container ID, returning
    the zero response, whose [Config] is nil, with an error. *)
Definition docker_client (dc : Docker) : Prop :=
  (∀ containerID, (ContainerStats dc containerID).2 ≠ None →
     Body (ContainerStats dc containerID).1 = None)
  ∧ Config (ContainerInspect dc "").1 = None
  ∧ (ContainerInspect dc "").2 ≠ None.

(** ** Sample inputs *)

(** Cache above usage, as when the two counters are read at different
    instants. *)
Definition mem_cache_above_usage : memory_stats :=
  {| Usage := 4096; Stats := {[ "cache" := 8192 ]}; Limit := 1048576 |}.

Definition mem_sample : memory_stats :=
  {| Usage := 8192; Stats := {[ "cache" := 4096 ]}; Limit := 1048576 |}.

(** Two read entries of [2^63] bytes each. *)
Definition blkio_overflow : blkio_stats :=
  {| IoServiceBytesRecursive :=
       [ {| Op := "Read"; Value := 2 ^ 63 |}; {| Op := "Read"; Value := 2 ^ 63 |} ] |}.

(** Three interfaces, one of them at [2^53] received bytes. *)
Definition networks_large : gmap string network_stats :=
  <["eth1" := {| RxBytes := 2 ^ 53; TxBytes := 0 |}]>
  (<["eth0" := {| RxBytes := 1; TxBytes := 0 |}]>
  (<["lo" := {| RxBytes := 1; TxBytes := 0 |}]> ∅)).

Definition networks_sample : gmap string network_stats :=
  <["eth0" := {| RxBytes := 1500; TxBytes := 700 |}]>
  (<["lo" := {| RxBytes := 40; TxBytes := 40 |}]> ∅).

Definition cpu_sample (total system online : Z) (percpu : list Z) : cpu_stats :=
  {| CPUUsage := {| TotalUsage := total; PercpuUsage := percpu |};
     SystemUsage := system; OnlineCPUs := online |}.

Definition stats_sample : stats_json :=
  {| ID := "c1"; Name := "/web";
     CPUStats := cpu_sample 400 2000 0 [200; 200];
     PreCPUStats := cpu_sample 200 1000 0 [100; 100];
     MemoryStats := mem_sample;
     BlkioStats := {| IoServiceBytesRecursive :=
       [ {| Op := "Read"; Value := 10 |}; {| Op := "Write"; Value := 20 |};
         {| Op := ""; Value := 5 |}; {| Op := "Total"; Value := 30 |} ] |};
     Networks := networks_sample |}.

Definition labels_sample : gmap string string :=
  <["io.kubernetes.pod.name" := "x"]> (<["unrelated" := "y"]> ∅).

Definition inspect_ok (labels : gmap string string) : container_json * option error :=
  ({| Config := Some {| Labels := labels |} |}, None).

(** What the Docker client returns when a call fails: the zero value of the
    response and the error. *)
Definition inspect_failed (err : error) : container_json * option error :=
  ({| Config := None |}, Some err).

(** An inspection by the Docker client: it refuses an empty container ID
    before any request, and otherwise answers with the container's labels. *)
Definition inspect_by_id (labels : gmap string string) (containerID : string)
    : container_json * option error :=
  if decide (containerID = "")
  then inspect_failed "invalid container name or ID: value is empty"
  else inspect_ok labels.

Definition stats_ok (body os : string) : container_stats * option error :=
  ({| Body := Some {| content := body; read_error := None |}; OSType := os |}, None).

(** A decoder that knows one document, [sample]. *)
Definition decode_only (sample : string) (v : stats_json) (body : string)
    : option stats_json * option error :=
  if decide (body = sample) then (Some v, None)
  else (None, Some "invalid character"%string).

(** One healthy container. *)
Definition dc_healthy (os : string) : Docker :=
  {| ContainerList := ([ {| Container_ID := "c1" |} ], None);
     ContainerStats := λ _, stats_ok "sample" os;
     ContainerInspect := inspect_by_id labels_sample;
     NewClientWithOpts := None;
     json_Unmarshal := decode_only "sample" stats_sample |}.

(** One healthy container whose inspection call fails. *)
Definition dc_inspect_fails : Docker :=
  {| ContainerList := ([ {| Container_ID := "c1" |} ], None);
     ContainerStats := λ _, stats_ok "sample" "linux";
     ContainerInspect := λ _, inspect_failed "connection refused";
     NewClientWithOpts := None;
     json_Unmarshal := decode_only "sample" stats_sample |}.

(** The listing call fails. *)
Definition dc_listing_fails : Docker :=
  {| ContainerList := ([], Some "cannot connect to the Docker daemon"%string);
     ContainerStats := λ _, stats_ok "sample" "linux";
     ContainerInspect := inspect_by_id ∅;
     NewClientWithOpts := None;
     json_Unmarshal := decode_only "sample" stats_sample |}.

(** One container whose stats body is not valid JSON. *)
Definition dc_bad_body_checked : Docker :=
  {| ContainerList := ([ {| Container_ID := "c1" |} ], None);
     ContainerStats := λ _, stats_ok "{" "linux";
     ContainerInspect := inspect_by_id ∅;
     NewClientWithOpts := None;
     json_Unmarshal := decode_only "sample" stats_sample |}.

(** A snapshot whose container counter went from [2^53] to [2^53 + 1] while
    the system counter went from 0 to 1000, on one CPU. *)
Definition stats_cpu_large : stats_json :=
  {| ID := "c1"; Name := "/web";
     CPUStats := cpu_sample (2 ^ 53 + 1) 1000 1 [];
     PreCPUStats := cpu_sample (2 ^ 53) 0 1 [];
     MemoryStats := mem_sample;
     BlkioStats := {| IoServiceBytesRecursive := [] |};
     Networks := networks_sample |}.



(** The entry [getStats] derives on [dc_healthy "linux"], before the labels
    are set. *)
Definition entry_derived : StatsEntry :=
  {| ContainerID := "c1"; ContainerName := "/web";
     CPUPercentage := Float64.of_Z 40; Memory := Float64.of_Z 4096;
     MemoryPercentage := Float64.div (Float64.of_Z 100) (Float64.of_Z 256);
     MemoryLimit := Float64.of_Z 1048576;
     NetworkRx := Float64.of_Z 1540; NetworkTx := Float64.of_Z 740;
     BlockRead := Float64.of_Z 10; BlockWrite := Float64.of_Z 20;
     EntryLabels := None |}.

(** The entry of [dc_healthy "linux"]. *)
Definition entry_sample : StatsEntry :=
  {| ContainerID := "c1"; ContainerName := "/web";
     CPUPercentage := Float64.of_Z 40; Memory := Float64.of_Z 4096;
     MemoryPercentage := Float64.div (Float64.of_Z 100) (Float64.of_Z 256);
     MemoryLimit := Float64.of_Z 1048576;
     NetworkRx := Float64.of_Z 1540; NetworkTx := Float64.of_Z 740;
     BlockRead := Float64.of_Z 10; BlockWrite := Float64.of_Z 20;
     EntryLabels := Some {[ "kubernetes_pod_name" := "x" ]} |}.

(** ** Number classes *)

(** A float that is neither a NaN nor negative: [+0], a positive finite
    value or [+Inf]. *)
Definition is_nonneg_number (x : float64) : bool :=
  match x with
  | S754_zero false | S754_finite false _ _ | S754_infinity false => true
  | _ => false
  end.

(** The snapshots the derivations were written for: every counter is a
    [uint64], the online CPU count a [uint32], and the four CPU counters are
    below [2^53], where their conversion to float64 is exact. *)
Definition exact_counter (z : Z) : bool := (0 <=? z) && (z <? 2 ^ 53).

Definition cpu_counters_exact (prevCPU prevSystem : Z) (v : stats_json) : bool :=
  exact_counter prevCPU && exact_counter prevSystem
  && exact_counter (TotalUsage (CPUUsage (CPUStats v)))
  && exact_counter (SystemUsage (CPUStats v))
  && is_uint32 (OnlineCPUs (CPUStats v)).

(** A decoded snapshot within the ranges above, with fewer than [2^64]
    per-CPU entries and [uint64] memory limit and network counters. *)
Definition snapshot_in_range (v : stats_json) : Prop :=
  cpu_counters_exact (TotalUsage (CPUUsage (PreCPUStats v)))
                     (SystemUsage (PreCPUStats v)) v = true
  ∧ is_uint64 (Z.of_nat (length (PercpuUsage (CPUUsage (CPUStats v))))) = true
  ∧ is_uint64 (Limit (MemoryStats v)) = true
  ∧ map_Forall (λ _ i, is_uint64 (RxBytes i) = true ∧ is_uint64 (TxBytes i) = true)
               (Networks v).

(** The float fields of an entry. *)
Definition float_fields (s : StatsEntry) : list float64 :=
  [ CPUPercentage s; Memory s; MemoryPercentage s; MemoryLimit s;
    NetworkRx s; NetworkTx s; BlockRead s; BlockWrite s ].

(** ** The reconnection watcher *)

(** What the error channel of the event stream delivers: [io.EOF],
    [io.ErrUnexpectedEOF], which the watcher compares by identity, or any
    other error. *)
Inductive stream_error :=
  | io_EOF
  | io_ErrUnexpectedEOF
  | other_error (msg : error).

Inductive watch_event :=
  | WatchInfo                       (* logrus.Info("EVENT[WATCH]: Containers") *)
  | WatchEvents                     (* e.dc.Events(ctx, options) *)
  | WatchWarn (err : stream_error)  (* logrus.Warnf *)
  | WatchSetClient                  (* e.dc = newDockerClient(...) *)
  | WatchSleep (ms : Z).            (* time.Sleep *)

(** [err == io.EOF || err == io.ErrUnexpectedEOF]. *)
Definition closed_unexpectedly (err : stream_error) : bool :=
  match err with
  | io_EOF | io_ErrUnexpectedEOF => true
  | other_error _ => false
  end.

(** One turn of the loop of [Watch], on the error received: its events, and
    whether the process is still running after it ([Fatalf] ends it). *)
Definition Watch_iteration (dc : Docker) (err : stream_error)
    : list watch_event * bool :=
  if closed_unexpectedly err then
    match outcome (newDockerClient dc) with
    | Done _ => ([WatchWarn err; WatchSetClient; WatchSleep 250; WatchEvents], true)
    | _ => ([WatchWarn err], false)
    end
  else ([WatchWarn err; WatchEvents], true).

(** The loop over the errors delivered so far, one per subscription. *)
Fixpoint Watch_loop (dc : Docker) (errs : list stream_error)
    : list watch_event * bool :=
  match errs with
  | [] => ([], true)
  | err :: errs =>
      let '(evs, running) := Watch_iteration dc err in
      if running
      then let '(evs', running') := Watch_loop dc errs in (evs ++ evs', running')
      else (evs, false)
  end.

(** [Watch] up to the point where [errs] have been delivered. *)
Definition Watch (dc : Docker) (errs : list stream_error)
    : list watch_event * bool :=
  let '(evs, running) := Watch_loop dc errs in
  (WatchInfo :: WatchEvents :: evs, running).

Definition is_WatchEvents (ev : watch_event) : bool :=
  match ev with WatchEvents => true | _ => false end.
Definition is_WatchSetClient (ev : watch_event) : bool :=
  match ev with WatchSetClient => true | _ => false end.
Definition warned (ev : watch_event) : option stream_error :=
  match ev with WatchWarn err => Some err | _ => None end.

(** The errors up to and including the first that closed the stream. *)
Fixpoint until_closed (errs : list stream_error) : list stream_error :=
  match errs with
  | [] => []
  | err :: errs =>
      if closed_unexpectedly err then [err] else err :: until_closed errs
  end.

(** ** The HTTP handler of [/stats] *)

(** The [Response] of [main]; a nil [Stats] slice is [None]. *)
Record Response := {
  Response_Stats : option (list StatsEntry);
  Response_Msg : string
}.

(** The calls [c.JSON(code, obj)] the handler makes on what [List]
    returned. *)
Definition handler (result : list StatsEntry) (err : option error)
    : list (Z * Response) :=
  match err with
  | Some err => [ (500, {| Response_Stats := None; Response_Msg := err |}) ]
  | None => []
  end
  ++ [ (200, {| Response_Stats := Some result; Response_Msg := "" |}) ].

(** The three output names of the vocabulary. *)
Definition output_names : gset string :=
  {[ "kubernetes_pod_namespace"; "kubernetes_pod_name";
     "kubernetes_container_name" ]}.

(** A daemon with two containers, the second of which cannot be fetched:
    the client returns the zero response and the error. *)
Definition dc_fetch_fails : Docker :=
  {| ContainerList :=
       ([ {| Container_ID := "c1" |}; {| Container_ID := "c2" |} ], None);
     ContainerStats := λ id,
       if decide (id = "c2")
       then ({| Body := None; OSType := "" |}, Some "context deadline exceeded"%string)
       else stats_ok "sample" "linux";
     ContainerInspect := inspect_by_id labels_sample;
     NewClientWithOpts := None;
     json_Unmarshal := decode_only "sample" stats_sample |}.

(** A daemon with two healthy containers. *)
Definition dc_two_healthy : Docker :=
  {| ContainerList :=
       ([ {| Container_ID := "c1" |}; {| Container_ID := "c2" |} ], None);
     ContainerStats := λ _, stats_ok "sample" "linux";
     ContainerInspect := inspect_by_id labels_sample;
     NewClientWithOpts := None;
     json_Unmarshal := decode_only "sample" stats_sample |}.

(** A daemon with nothing running. *)
Definition dc_idle : Docker :=
  {| ContainerList := ([], None);
     ContainerStats := λ _, stats_ok "sample" "linux";
     ContainerInspect := inspect_by_id ∅;
     NewClientWithOpts := None;
     json_Unmarshal := decode_only "sample" stats_sample |}.

(** A daemon for which no new client can be built. *)
Definition dc_no_client : Docker :=
  {| ContainerList := ([], None);
     ContainerStats := λ _, stats_ok "sample" "linux";
     ContainerInspect := λ _, inspect_failed "connection refused";
     NewClientWithOpts := Some "invalid options"%string;
     json_Unmarshal := decode_only "sample" stats_sample |}.

(** * Facts about binary64 arithmetic

    What the derivations need from IEEE arithmetic: converting a [uint64]
    never overflows, a difference of two converted counters is never a NaN,
    and sums of integers that stay below [2^53] are exact. *)

Module Float64Facts.
Import Float64.

Ltac zfold :=
  change IntDef.Z.add with Z.add in *; change IntDef.Z.sub with Z.sub in *;
  change IntDef.Z.opp with Z.opp in *; change IntDef.Z.mul with Z.mul in *;
  change IntDef.Z.max with Z.max in *; change IntDef.Z.min with Z.min in *;
  change IntDef.Z.leb with Z.leb in *; change IntDef.Z.eqb with Z.eqb in *;
  change IntDef.Z.compare with Z.compare in *;
  change PosDef.Pos.add with Pos.add in *.

Lemma iter_pos_Pos_iter {A} (f : A → A) n x : SpecFloat.iter_pos f n x = Pos.iter f x n.
Proof.
  revert x. induction n as [n IH|n IH|]; intros x; simpl; [|by rewrite !IH|done].
  by rewrite !IH, !Pos.iter_swap.
Qed.

Lemma iter_shr_1_exact n q p :
  Zpos q = Zpos p * 2 ^ Zpos n →
  SpecFloat.iter_pos shr_1 n (Build_shr_record (Zpos q) false false)
  = Build_shr_record (Zpos p) false false.
Proof.
  rewrite iter_pos_Pos_iter. revert q.
  induction n as [|n IH] using Pos.peano_ind; intros q Hq.
  - destruct q as [q|q|]; try lia. simpl. do 2 f_equal. lia.
  - rewrite Pos.iter_succ_r. rewrite Pos2Z.inj_succ, Z.pow_succ_r in Hq by lia.
    destruct q as [q|q|]; try lia. simpl. apply IH. lia.
Qed.

Lemma digits2_pos_shift j : 0 ≤ j → ∀ q p,
  Zpos q = Zpos p * 2 ^ j → Zpos (digits2_pos q) = Zpos (digits2_pos p) + j.
Proof.
  intros Hj. pattern j. apply natlike_ind; [| |done].
  - intros q p Hq. replace q with p by lia. lia.
  - intros k Hk IH q p Hq. rewrite Z.pow_succ_r in Hq by done.
    destruct q as [q|q|]; try lia. simpl. rewrite Pos2Z.inj_succ.
    rewrite (IH q p) by lia. lia.
Qed.

Lemma digits2_pos_bound p : ∀ n, 0 ≤ n → Zpos p < 2 ^ n → Zpos (digits2_pos p) ≤ n.
Proof.
  induction p as [p IH|p IH|]; intros n Hn Hp.
  - destruct (decide (n = 0)) as [->|]; [simpl in Hp; lia|].
    replace n with (Z.succ (n - 1)) in Hp by lia. rewrite Z.pow_succ_r in Hp by lia.
    simpl. rewrite Pos2Z.inj_succ. specialize (IH (n - 1)). lia.
  - destruct (decide (n = 0)) as [->|]; [simpl in Hp; lia|].
    replace n with (Z.succ (n - 1)) in Hp by lia. rewrite Z.pow_succ_r in Hp by lia.
    simpl. rewrite Pos2Z.inj_succ. specialize (IH (n - 1)). lia.
  - destruct (decide (n = 0)) as [->|]; [simpl in Hp; lia|]. simpl. lia.
Qed.

Lemma shift_pos_Z k p : Zpos (Pos.iter xO p k) = Zpos p * 2 ^ Zpos k.
Proof.
  induction k as [|k IH] using Pos.peano_ind.
  - simpl. lia.
  - rewrite Pos.iter_succ, Pos2Z.inj_succ, Z.pow_succ_r by lia.
    rewrite Pos2Z.inj_xO, IH. lia.
Qed.


Lemma digits2_pos_range p : 1 ≤ Zpos (digits2_pos p).
Proof. lia. Qed.

Lemma canonical_mant_Z p :
  Zpos p < 2 ^ 53 →
  Zpos (canonical_mant p) = Zpos p * 2 ^ (53 - Zpos (digits2_pos p)).
Proof.
  intros Hp. unfold canonical_mant. apply Z2Pos.id.
  pose proof (digits2_pos_bound p 53 ltac:(lia) Hp).
  apply Z.mul_pos_pos; [lia|]. apply Z.pow_pos_nonneg; lia.
Qed.

Lemma round_aux_exact s q e n m :
  0 ≤ n → Zpos q = Zpos m * 2 ^ n → Zpos (digits2_pos m) = 53 →
  -1074 ≤ e + n ≤ 971 →
  binary_round_aux prec emax s (Zpos q) e loc_Exact = S754_finite s m (e + n).
Proof.
  intros Hn Hq Hm He.
  pose proof (digits2_pos_shift n Hn q m Hq) as Hdq.
  assert (Hcanon : ∀ e', -1074 ≤ e' ≤ 971 →
    shr_fexp prec emax (Zpos m) e' loc_Exact
    = (Build_shr_record (Zpos m) false false, e')).
  { intros e' He'. unfold shr_fexp, fexp, emin, prec, emax. zfold. simpl Zdigits2.
    rewrite Hm. replace (Z.max (53 + e' - 53) (3 - 1024 - 53) - e') with 0 by lia.
    done. }
  unfold binary_round_aux.
  assert (shr_fexp prec emax (Zpos q) e loc_Exact
          = (Build_shr_record (Zpos m) false false, e + n)) as ->.
  { destruct (decide (n = 0)) as [->|Hn0].
    - replace q with m by lia. rewrite Z.add_0_r. apply Hcanon. lia.
    - unfold shr_fexp, fexp, emin, prec, emax. zfold. simpl Zdigits2. rewrite Hdq, Hm.
      replace (Z.max (53 + n + e - 53) (3 - 1024 - 53) - e) with n by lia.
      destruct n as [|n|n]; try lia. simpl. f_equal.
      by apply iter_shr_1_exact. }
  simpl. rewrite Hcanon by lia. simpl.
  unfold prec, emax. destruct (Z.leb_spec (e + n) (1024 - 53)); [done|lia].
Qed.

Lemma binary_round_exact s q j p :
  0 ≤ j → Zpos q = Zpos p * 2 ^ j → Zpos p < 2 ^ 53 →
  binary_round prec emax s q (- j)
  = S754_finite s (canonical_mant p) (Zpos (digits2_pos p) - 53).
Proof.
  intros Hj Hq Hp.
  pose proof (digits2_pos_bound p 53 ltac:(lia) Hp) as Hd.
  pose proof (canonical_mant_Z p Hp) as Hcm.
  pose proof (digits2_pos_shift j Hj q p Hq) as Hdq.
  assert (Hdcm : Zpos (digits2_pos (canonical_mant p)) = 53).
  { rewrite (digits2_pos_shift (53 - Zpos (digits2_pos p)) ltac:(lia) _ p Hcm). lia. }
  pose proof (digits2_pos_range p) as Hd1.
  set (d := Zpos (digits2_pos p)) in *. clearbody d.
  unfold binary_round, shl_align, fexp, emin, prec, emax. zfold. rewrite Hdq.
  replace (Z.max (d + j + - j - 53) (3 - 1024 - 53) - - j) with (j - (53 - d)) by lia.
  destruct (j - (53 - d)) as [|k|k] eqn:Hk.
  - replace (d - 53) with (- j + 0) by lia.
    apply round_aux_exact; [lia| |done|lia].
    rewrite Hcm, Hq, Z.pow_0_r, Z.mul_1_r. f_equal; f_equal; lia.
  - replace (d - 53) with (- j + Zpos k) by lia.
    apply round_aux_exact; [lia| |done|lia].
    rewrite Hcm, Hq. rewrite <- Z.mul_assoc, <- Z.pow_add_r by lia.
    f_equal; f_equal; lia.
  - replace (Z.max (d + j + - j - 53) (3 - 1024 - 53)) with (d - 53) by lia.
    rewrite <- (Z.add_0_r (d - 53)) at 2.
    apply round_aux_exact; [lia| |done|lia].
    rewrite shift_pos_Z, Hq, Hcm, Z.pow_0_r, Z.mul_1_r, <- Z.mul_assoc, <- Z.pow_add_r by lia.
    f_equal; f_equal; lia.
Qed.

Lemma of_Z_small p :
  Zpos p < 2 ^ 53 →
  of_Z (Zpos p) = S754_finite false (canonical_mant p) (Zpos (digits2_pos p) - 53).
Proof.
  intros Hp. unfold of_Z, binary_normalize.
  apply (binary_round_exact false p 0 p); [lia|lia|done].
Qed.

Lemma shl_align_Z m e e' :
  e' ≤ e → Zpos (fst (shl_align m e e')) = Zpos m * 2 ^ (e - e').
Proof.
  intros He. unfold shl_align. zfold. destruct (e' - e) as [|k|k] eqn:Hk; try lia; simpl.
  - replace (e - e') with 0 by lia. lia.
  - rewrite shift_pos_Z. f_equal; f_equal; lia.
Qed.

Lemma add_exact a b :
  0 ≤ a → 0 ≤ b → a + b < 2 ^ 53 → add (of_Z a) (of_Z b) = of_Z (a + b).
Proof.
  intros Ha Hb Hab.
  destruct a as [|a|a]; [|clear Ha|lia].
  { destruct b as [|b|b]; [done| |lia]. rewrite Z.add_0_l, !of_Z_small by lia. done. }
  destruct b as [|b|b]; [|clear Hb|lia].
  { rewrite Z.add_0_r, !of_Z_small by lia. done. }
  assert (Zpos a < 2 ^ 53) as Ha by lia. assert (Zpos b < 2 ^ 53) as Hb by lia.
  pose proof (digits2_pos_bound a 53 ltac:(lia) Ha).
  pose proof (digits2_pos_bound b 53 ltac:(lia) Hb).
  pose proof (canonical_mant_Z a Ha) as Hca.
  pose proof (canonical_mant_Z b Hb) as Hcb.
  rewrite (of_Z_small a), (of_Z_small b) by done.
  change (Zpos a + Zpos b) with (Zpos (a + b)). rewrite (of_Z_small (a + b)) by lia.
  unfold add, SFadd. cbv zeta. zfold.
  pose proof (digits2_pos_range a). pose proof (digits2_pos_range b).
  set (da := Zpos (digits2_pos a)) in *. set (db := Zpos (digits2_pos b)) in *.
  set (ez := Z.min (da - 53) (db - 53)).
  unfold cond_Zopp.
  pose proof (shl_align_Z (canonical_mant a) (da - 53) ez ltac:(lia)) as Hsa.
  pose proof (shl_align_Z (canonical_mant b) (db - 53) ez ltac:(lia)) as Hsb.
  destruct (shl_align (canonical_mant a) (da - 53) ez) as [ma ea].
  destruct (shl_align (canonical_mant b) (db - 53) ez) as [mb eb].
  simpl in Hsa, Hsb. simpl fst. change (Zpos ma + Zpos mb) with (Zpos (ma + mb)).
  unfold binary_normalize. replace ez with (- (- ez)) by lia.
  apply binary_round_exact; [lia| |lia].
  rewrite Pos2Z.inj_add, Hsa, Hsb, Hca, Hcb, <- !Z.mul_assoc, <- !Z.pow_add_r by lia.
  rewrite Pos2Z.inj_add, Z.mul_add_distr_r. f_equal; f_equal; f_equal; lia.
Qed.


Lemma digits2_pos_upper p : Zpos p < 2 ^ Zpos (digits2_pos p).
Proof.
  induction p as [p IH|p IH|]; simpl; [| |lia];
    rewrite Pos2Z.inj_succ, Z.pow_succ_r by lia; lia.
Qed.

Lemma digits2_pos_lower p : 2 ^ (Zpos (digits2_pos p) - 1) ≤ Zpos p.
Proof.
  induction p as [p IH|p IH|]; simpl; [| |lia];
    rewrite Pos2Z.inj_succ; replace (Z.succ (Zpos (digits2_pos p)) - 1)
      with (Z.succ (Zpos (digits2_pos p) - 1)) by lia;
    rewrite Z.pow_succ_r by lia; lia.
Qed.

Lemma Zdigits2_bound m n : 0 ≤ m < 2 ^ n → 0 ≤ n → Zdigits2 m ≤ n.
Proof.
  intros [Hm0 Hm] Hn. destruct m as [|p|p]; simpl; [lia| |lia].
  by apply digits2_pos_bound.
Qed.

Lemma Zdigits2_lower m n : 2 ^ n ≤ m → 0 ≤ n → n + 1 ≤ Zdigits2 m.
Proof.
  intros Hm Hn. destruct m as [|p|p]; simpl.
  - pose proof (Z.pow_pos_nonneg 2 n). lia.
  - pose proof (digits2_pos_upper p).
    destruct (Z.le_gt_cases (n + 1) (Zpos (digits2_pos p))) as [|Hlt]; [done|].
    assert (2 ^ Zpos (digits2_pos p) ≤ 2 ^ n) by (apply Z.pow_le_mono_r; lia). lia.
  - pose proof (Z.pow_pos_nonneg 2 n). lia.
Qed.

Lemma shr_1_div2 mrs : 0 ≤ shr_m mrs → shr_m (shr_1 mrs) = shr_m mrs / 2.
Proof.
  destruct mrs as [[|[p|p|]|p] r t]; simpl; intros Hm; try lia; try reflexivity.
  - apply (Z.div_unique _ _ _ 1); lia.
  - apply (Z.div_unique _ _ _ 0); lia.
Qed.

Lemma iter_shr_1_div n mrs :
  0 ≤ shr_m mrs →
  shr_m (SpecFloat.iter_pos shr_1 n mrs) = shr_m mrs / 2 ^ Zpos n.
Proof.
  rewrite iter_pos_Pos_iter. intros Hm.
  induction n as [|n IH] using Pos.peano_ind.
  - simpl. by rewrite shr_1_div2.
  - assert (0 < 2 ^ Zpos n) by (apply Z.pow_pos_nonneg; lia).
    rewrite Pos.iter_succ, shr_1_div2; rewrite IH; [|apply Z.div_pos; lia].
    rewrite Pos2Z.inj_succ, Z.pow_succ_r, Z.div_div by lia. f_equal. lia.
Qed.

(** What [shr_fexp] computes on a non-negative mantissa: a floor division by
    the power of two that brings the exponent up to [fexp]. *)
Lemma shr_fexp_spec m e l :
  0 ≤ m →
  let n := Z.max 0 (fexp prec emax (Zdigits2 m + e) - e) in
  shr_m (fst (shr_fexp prec emax m e l)) = m / 2 ^ n ∧
  snd (shr_fexp prec emax m e l) = e + n.
Proof.
  intros Hm n. unfold shr_fexp, shr. zfold. subst n.
  assert (shr_m (shr_record_of_loc m l) = m) as Hrec
    by (by destruct l as [|[]]).
  destruct (fexp prec emax (Zdigits2 m + e) - e) as [|k|k]; simpl.
  - rewrite Hrec, Z.div_1_r. lia.
  - rewrite iter_shr_1_div by lia. rewrite Hrec. done.
  - rewrite Hrec, Z.div_1_r. lia.
Qed.

Lemma round_nearest_even_bounds m l :
  m ≤ round_nearest_even m l ≤ m + 1.
Proof.
  unfold round_nearest_even. zfold.
  destruct l as [|[]]; try lia. destruct (Z.even m); lia.
Qed.

Lemma binary_round_aux_not_nan s m e l :
  0 ≤ m → is_nan (binary_round_aux prec emax s m e l) = false.
Proof.
  intros Hm. unfold binary_round_aux.
  destruct (shr_fexp_spec m e l Hm) as [Hm1 _].
  destruct (shr_fexp prec emax m e l) as [mrs1 e1]. simpl in Hm1.
  pose proof (round_nearest_even_bounds (shr_m mrs1) (loc_of_shr_record mrs1)) as Hr.
  assert (0 ≤ shr_m mrs1) as Hm1' by (rewrite Hm1; apply Z.div_pos; lia).
  set (r := round_nearest_even _ _) in *.
  destruct (shr_fexp_spec r e1 loc_Exact ltac:(lia)) as [Hm2 _].
  destruct (shr_fexp prec emax r e1 loc_Exact) as [mrs2 e2]. simpl in Hm2.
  assert (0 ≤ shr_m mrs2) as Hm2' by (rewrite Hm2; apply Z.div_pos; lia).
  destruct (shr_m mrs2); [done| |lia]. by destruct (_ <=? _)%Z.
Qed.

Lemma binary_normalize_not_nan m e :
  is_nan (binary_normalize prec emax m e false) = false.
Proof.
  destruct m as [|p|p]; simpl; [done| |]; unfold binary_round;
    destruct (shl_align _ _ _); by apply binary_round_aux_not_nan.
Qed.

Lemma sub_not_nan x y :
  is_finite x = true → is_finite y = true → is_nan (sub x y) = false.
Proof.
  destruct x as [sx|sx| |sx mx ex], y as [sy|sy| |sy my ey];
    try done; intros _ _.
  - by destruct sx, sy.
  - apply binary_normalize_not_nan.
Qed.

Lemma of_Z_large p :
  2 ^ 53 ≤ Zpos p < 2 ^ 64 → ∃ m e, of_Z (Zpos p) = S754_finite false m e.
Proof.
  intros [Hlo Hhi].
  pose proof (digits2_pos_bound p 64 ltac:(lia) Hhi) as Hd64.
  pose proof (Zdigits2_lower (Zpos p) 53 Hlo ltac:(lia)) as Hd54. simpl in Hd54.
  pose proof (digits2_pos_lower p) as Hpl. pose proof (digits2_pos_upper p) as Hpu.
  unfold of_Z, binary_normalize, binary_round, shl_align, fexp, emin, prec, emax. zfold.
  set (d := Zpos (digits2_pos p)) in *.
  replace (Z.max (d + 0 - 53) (3 - 1024 - 53) - 0) with (d - 53) by lia.
  destruct (d - 53) as [|k|k] eqn:Hk; try lia.
  unfold binary_round_aux.
  destruct (shr_fexp_spec (Zpos p) 0 loc_Exact ltac:(lia)) as [Hm1 He1].
  fold prec emax.
  destruct (shr_fexp prec emax (Zpos p) 0 loc_Exact) as [mrs1 e1].
  simpl in Hm1, He1. unfold fexp, emin, prec, emax in Hm1, He1. zfold. fold d in Hm1, He1.
  replace (Z.max 0 (Z.max (d + 0 - 53) (3 - 1024 - 53) - 0)) with (d - 53) in * by lia.
  assert (2 ^ 52 ≤ shr_m mrs1 < 2 ^ 53) as Hb1.
  { rewrite Hm1. split.
    - apply Z.div_le_lower_bound; [apply Z.pow_pos_nonneg; lia|].
      rewrite <- Z.pow_add_r by lia. replace (d - 53 + 52) with (d - 1) by lia. done.
    - apply Z.div_lt_upper_bound; [apply Z.pow_pos_nonneg; lia|].
      rewrite <- Z.pow_add_r by lia. replace (d - 53 + 53) with d by lia. done. }
  pose proof (round_nearest_even_bounds (shr_m mrs1) (loc_of_shr_record mrs1)) as Hr.
  set (r := round_nearest_even _ _) in *.
  destruct (shr_fexp_spec r e1 loc_Exact ltac:(lia)) as [Hm2 He2].
  destruct (shr_fexp prec emax r e1 loc_Exact) as [mrs2 e2].
  simpl in Hm2, He2. unfold fexp, emin, prec, emax in Hm2, He2. zfold.
  pose proof (Zdigits2_lower r 52 ltac:(lia) ltac:(lia)) as Hdr1.
  pose proof (Zdigits2_bound r 54 ltac:(lia) ltac:(lia)) as Hdr2.
  set (n2 := Z.max 0 _) in *.
  assert (n2 = 0 ∨ n2 = 1) as Hn2 by lia.
  assert (0 < shr_m mrs2) as Hpos.
  { rewrite Hm2. destruct Hn2 as [-> | ->].
    - rewrite Z.pow_0_r, Z.div_1_r. lia.
    - apply Z.div_str_pos. lia. }
  destruct (shr_m mrs2) as [|m2|m2]; try lia.
  unfold prec, emax. zfold.
  destruct (Z.leb_spec e2 (1024 - 53)); [by eexists _, _|lia].
Qed.

Lemma of_Z_uint64 z :
  0 ≤ z < 2 ^ 64 →
  (z = 0 ∧ of_Z z = zero) ∨ (0 < z ∧ ∃ m e, of_Z z = S754_finite false m e).
Proof.
  intros [Hz0 Hz]. destruct z as [|p|p]; [by left|right|lia].
  split; [lia|]. destruct (Z.lt_ge_cases (Zpos p) (2 ^ 53)).
  - rewrite of_Z_small by done. by eexists _, _.
  - by apply of_Z_large.
Qed.

Lemma of_Z_uint64_finite z : 0 ≤ z < 2 ^ 64 → is_finite (of_Z z) = true.
Proof.
  intros Hz. by destruct (of_Z_uint64 z Hz) as [[_ ->]|[_ (m & e & ->)]].
Qed.

Lemma of_Z_uint64_eqb_zero z : 0 ≤ z < 2 ^ 64 → eqb (of_Z z) zero = (z =? 0).
Proof.
  intros Hz. destruct (of_Z_uint64 z Hz) as [[-> ->]|[Hpos (m & e & ->)]]; [done|].
  simpl. symmetry. apply Z.eqb_neq. lia.
Qed.

(** Ordering against zero of a value that is not a NaN. *)
Lemma leb_zero_ltb x : leb x zero = true → ltb zero x = false.
Proof. by destruct x as [s| [] | |[] m e]. Qed.

Lemma not_leb_zero_ltb x :
  is_nan x = false → leb x zero = false → ltb zero x = true.
Proof. by destruct x as [s| [] | |[] m e]. Qed.

End Float64Facts.

(** * Memory *)

Section Memory.
Import Float64 Float64Facts.

Lemma is_uint64_range z : is_uint64 z = true ↔ 0 ≤ z < 2 ^ 64.
Proof. unfold is_uint64, uint64_modulus. rewrite andb_true_iff, Z.leb_le, Z.ltb_lt. done. Qed.

Lemma is_uint32_range z : is_uint32 z = true ↔ 0 ≤ z < 2 ^ 32.
Proof. unfold is_uint32. rewrite andb_true_iff, Z.leb_le, Z.ltb_lt. done. Qed.

(** The cache value read by [calcMemUsageNoCache] is 0 when the stats
    mapping has no "cache" entry. *)
Lemma cache_absent mem :
  Stats mem !! "cache" = None → uint64_at (Stats mem) "cache" = 0.
Proof. unfold uint64_at. by intros ->. Qed.

Lemma cache_present mem c :
  Stats mem !! "cache" = Some c → uint64_at (Stats mem) "cache" = c.
Proof. unfold uint64_at. by intros ->. Qed.




(** C6: the memory percentage is [usedNoCache / limit * 100] when the limit
    is not zero and exactly [+0] when it is; the function is total, nothing
    divides by zero. *)
Theorem calcMemPercentNoCache_spec mem (usedNoCache : float64) :
  is_uint64 (Limit mem) = true →
  let limit := float64_of_uint64 (Limit mem) in
  (Limit mem = 0 → calcMemPercentNoCache limit usedNoCache = zero) ∧
  (Limit mem ≠ 0 →
   calcMemPercentNoCache limit usedNoCache = mul (div usedNoCache limit) (of_Z 100)).
Proof.
  intros Hl%is_uint64_range limit. unfold calcMemPercentNoCache.
  subst limit. unfold float64_of_uint64. rewrite of_Z_uint64_eqb_zero by done.
  split; intros Hz.
  - by rewrite Hz.
  - by apply Z.eqb_neq in Hz as ->.
Qed.

Lemma calcMemPercentNoCache_spec_witness :
  calcMemPercentNoCache (float64_of_uint64 0) (of_Z 4096) = zero ∧
  calcMemPercentNoCache (float64_of_uint64 1048576) (of_Z 4096)
  = mul (div (of_Z 4096) (float64_of_uint64 1048576)) (of_Z 100).
Proof.
  split.
  - apply (proj1 (calcMemPercentNoCache_spec
                    {| Usage := 0; Stats := ∅; Limit := 0 |} (of_Z 4096) eq_refl)).
    reflexivity.
  - apply (proj2 (calcMemPercentNoCache_spec mem_sample (of_Z 4096) eq_refl)).
    simpl. lia.
Defined.

(** On floats directly: the test [limit != 0] decides the result. *)
Lemma calcMemPercentNoCache_float (limit usedNoCache : float64) :
  calcMemPercentNoCache limit usedNoCache =
    if eqb limit zero then zero else mul (div usedNoCache limit) (of_Z 100).
Proof. unfold calcMemPercentNoCache. by destruct (eqb limit zero). Qed.

End Memory.

(** * Block I/O *)

Section BlockIO.
Import Float64 Float64Facts.

Lemma read_total_cons e l :
  read_total (e :: l) = counted (is_read_op (Op e)) (Value e) + read_total l.
Proof.
  unfold read_total. rewrite filter_cons.
  destruct (is_read_op (Op e)); simpl; [done|lia].
Qed.

Lemma write_total_cons e l :
  write_total (e :: l) = counted (is_write_op (Op e)) (Value e) + write_total l.
Proof.
  unfold write_total. rewrite filter_cons.
  destruct (is_write_op (Op e)); simpl; [done|lia].
Qed.

Lemma calcBlockIO_step_spec r w e :
  calcBlockIO_step (r mod 2 ^ 64, w mod 2 ^ 64) e =
    ((r + counted (is_read_op (Op e)) (Value e)) mod 2 ^ 64,
     (w + counted (is_write_op (Op e)) (Value e)) mod 2 ^ 64).
Proof.
  unfold calcBlockIO_step, is_read_op, is_write_op, starts_with, uint64_add,
    uint64_modulus.
  destruct (Op e) as [|c op]; simpl; [by rewrite !Z.add_0_r|].
  repeat case_bool_decide; simpl; rewrite ?Z.add_0_r, ?Z.add_mod_idemp_l by lia;
    try done.
  exfalso. intuition congruence.
Qed.

Lemma calcBlockIO_loop l : ∀ r w,
  foldl calcBlockIO_step (r mod 2 ^ 64, w mod 2 ^ 64) l =
    ((r + read_total l) mod 2 ^ 64, (w + write_total l) mod 2 ^ 64).
Proof.
  induction l as [|e l IH]; intros r w; cbn [foldl].
  - unfold read_total, write_total. simpl. by rewrite !Z.add_0_r.
  - rewrite calcBlockIO_step_spec, IH, read_total_cons, write_total_cons.
    by rewrite !Z.add_assoc.
Qed.

(** C8, as stated, fails: two read entries of [2^63] bytes give a read total
    of 0, not their sum [2^64]. *)
Lemma calcBlockIO_not_sum :
  (calcBlockIO blkio_overflow).1
  ≠ of_Z (read_total (IoServiceBytesRecursive blkio_overflow))
  ∧ read_total (IoServiceBytesRecursive blkio_overflow) = 2 ^ 64
  ∧ (calcBlockIO blkio_overflow).1 = zero.
Proof. repeat split; by vm_compute. Qed.

(** The two totals, as the accumulators hold them. *)
Lemma calcBlockIO_totals blkio :
  calcBlockIO blkio =
    (float64_of_uint64 (read_total (IoServiceBytesRecursive blkio) mod 2 ^ 64),
     float64_of_uint64 (write_total (IoServiceBytesRecursive blkio) mod 2 ^ 64)).
Proof.
  unfold calcBlockIO.
  change (0, 0) with (0 mod 2 ^ 64, 0 mod 2 ^ 64). by rewrite calcBlockIO_loop.
Qed.

(** C8 (amended): the block-read total is the sum modulo [2^64] of [Value]
    over the entries whose operation code starts with 'r' or 'R', the
    block-write total the sum modulo [2^64] over those starting with 'w' or
    'W', both converted to float64; an entry with an empty operation code can
    be removed without changing either total. *)
Theorem calcBlockIO_spec blkio :
  calcBlockIO blkio =
    (float64_of_uint64 (read_total (IoServiceBytesRecursive blkio) mod 2 ^ 64),
     float64_of_uint64 (write_total (IoServiceBytesRecursive blkio) mod 2 ^ 64))
  ∧ ∀ before after value,
      calcBlockIO {| IoServiceBytesRecursive :=
                       before ++ {| Op := ""; Value := value |} :: after |}
      = calcBlockIO {| IoServiceBytesRecursive := before ++ after |}.
Proof.
  split; [apply calcBlockIO_totals|]. intros before after value.
  rewrite !calcBlockIO_totals. simpl.
  unfold read_total, write_total. by rewrite !filter_app, !filter_cons.
Qed.

(** Totals that fit in 64 bits are the exact sums. *)
Lemma calcBlockIO_no_overflow blkio :
  Forall (λ e, 0 ≤ Value e) (IoServiceBytesRecursive blkio) →
  read_total (IoServiceBytesRecursive blkio) < 2 ^ 64 →
  write_total (IoServiceBytesRecursive blkio) < 2 ^ 64 →
  calcBlockIO blkio =
    (float64_of_uint64 (read_total (IoServiceBytesRecursive blkio)),
     float64_of_uint64 (write_total (IoServiceBytesRecursive blkio))).
Proof.
  intros Hpos Hr Hw. rewrite calcBlockIO_totals.
  assert (Hnn : ∀ (P : blkio_stat_entry → Prop) `{!∀ e, Decision (P e)} l,
             Forall (λ e, 0 ≤ Value e) l → 0 ≤ sum_with Value (filter P l)).
  { intros P ? l Hl. induction Hl as [|e l He Hl IH]; simpl; [done|].
    rewrite filter_cons. destruct (decide (P e)); simpl; lia. }
  rewrite !Z.mod_small; [done| |]; split; try done; by apply Hnn.
Qed.

Lemma calcBlockIO_sample :
  calcBlockIO (BlkioStats stats_sample) = (of_Z 10, of_Z 20).
Proof. by vm_compute. Qed.

End BlockIO.

(** * CPU *)

Section CPU.
Import Float64 Float64Facts.

(** On any [uint64] counters the two float64 differences are never a NaN, so
    the test of the body has two cases only: one of the rounded differences
    is not positive, and the result is [+0], or both are positive. *)
Lemma calcCPUPercent_rounded_deltas (prevCPU prevSystem : Z) (v : stats_json) :
  is_uint64 prevCPU = true →
  is_uint64 prevSystem = true →
  is_uint64 (TotalUsage (CPUUsage (CPUStats v))) = true →
  is_uint64 (SystemUsage (CPUStats v)) = true →
  is_uint32 (OnlineCPUs (CPUStats v)) = true →
  let cpuDelta :=
    sub (float64_of_uint64 (TotalUsage (CPUUsage (CPUStats v))))
        (float64_of_uint64 prevCPU) in
  let systemDelta :=
    sub (float64_of_uint64 (SystemUsage (CPUStats v)))
        (float64_of_uint64 prevSystem) in
  let onlineCPUs :=
    if OnlineCPUs (CPUStats v) =? 0
    then float64_of_int (length (PercpuUsage (CPUUsage (CPUStats v))))
    else float64_of_uint64 (OnlineCPUs (CPUStats v)) in
  (leb cpuDelta zero = true ∨ leb systemDelta zero = true →
   calcCPUPercent prevCPU prevSystem v = zero) ∧
  (¬ (leb cpuDelta zero = true ∨ leb systemDelta zero = true) →
   calcCPUPercent prevCPU prevSystem v
   = mul (mul (div cpuDelta systemDelta) onlineCPUs) (of_Z 100)).
Proof.
  intros HpC%is_uint64_range HpS%is_uint64_range HC%is_uint64_range
    HS%is_uint64_range HO%is_uint32_range cpuDelta systemDelta onlineCPUs.
  assert (is_nan cpuDelta = false) as HnC
    by (apply sub_not_nan; by apply of_Z_uint64_finite).
  assert (is_nan systemDelta = false) as HnS
    by (apply sub_not_nan; by apply of_Z_uint64_finite).
  assert (eqb (float64_of_uint64 (OnlineCPUs (CPUStats v))) zero
          = (OnlineCPUs (CPUStats v) =? 0)) as Honline
    by (apply of_Z_uint64_eqb_zero; lia).
  unfold calcCPUPercent. rewrite Honline. fold cpuDelta systemDelta onlineCPUs.
  split.
  - intros [H|H]; apply leb_zero_ltb in H; rewrite H; [by rewrite andb_false_r|done].
  - intros Hpos.
    destruct (leb cpuDelta zero) eqn:HlC; [by destruct Hpos; left|].
    destruct (leb systemDelta zero) eqn:HlS; [by destruct Hpos; right|].
    by rewrite !not_leb_zero_ltb.
Qed.

(** C2, as stated, fails: with the container counter going from [2^53] to
    [2^53 + 1] and the system counter from 0 to 1000 both deltas are
    positive, yet the two conversions of the container counter round to the
    same float64 and the result is 0, not [(1 / 1000) * 1 * 100]. *)
Lemma calcCPUPercent_not_on_counters :
  let v := stats_cpu_large in
  let cpuDelta := TotalUsage (CPUUsage (CPUStats v)) - 2 ^ 53 in
  let systemDelta := SystemUsage (CPUStats v) - 0 in
  is_uint64 (TotalUsage (CPUUsage (CPUStats v))) = true
  ∧ 0 < cpuDelta ∧ 0 < systemDelta
  ∧ calcCPUPercent (2 ^ 53) 0 v = zero
  ∧ calcCPUPercent (2 ^ 53) 0 v
    ≠ mul (mul (div (of_Z cpuDelta) (of_Z systemDelta))
               (float64_of_uint64 (OnlineCPUs (CPUStats v))))
          (of_Z 100).
Proof. repeat split; by vm_compute. Qed.

End CPU.

(** * Network *)

Section Network.
Import Float64 Float64Facts.

Lemma sum_with_perm {A} (f : A → Z) (l1 l2 : list A) :
  l1 ≡ₚ l2 → sum_with f l1 = sum_with f l2.
Proof. induction 1; simpl; lia. Qed.

Lemma sum_with_nonneg {A} (f : A → Z) (l : list A) :
  Forall (λ x, 0 ≤ f x) l → 0 ≤ sum_with f l.
Proof. induction 1; simpl; lia. Qed.

(** The loop of [calcNetwork] adds exactly while the running totals stay
    below [2^53]. *)
Lemma calcNetwork_loop (l : list (string * network_stats)) : ∀ rx tx,
  Forall (λ kv, 0 ≤ RxBytes kv.2 ∧ 0 ≤ TxBytes kv.2) l →
  0 ≤ rx → 0 ≤ tx →
  rx + sum_with (λ kv, RxBytes kv.2) l < 2 ^ 53 →
  tx + sum_with (λ kv, TxBytes kv.2) l < 2 ^ 53 →
  foldl calcNetwork_step (of_Z rx, of_Z tx) l
  = (of_Z (rx + sum_with (λ kv, RxBytes kv.2) l),
     of_Z (tx + sum_with (λ kv, TxBytes kv.2) l)).
Proof.
  induction l as [|[name v] l IH]; intros rx tx Hl Hrx Htx Hr Ht; simpl.
  - by rewrite !Z.add_0_r.
  - apply Forall_cons in Hl as [[Hvr Hvt] Hl]. simpl in *.
    assert (0 ≤ sum_with (λ kv, RxBytes kv.2) l)
      by (apply sum_with_nonneg; eapply Forall_impl; [done|]; by intros ? [??]).
    assert (0 ≤ sum_with (λ kv, TxBytes kv.2) l)
      by (apply sum_with_nonneg; eapply Forall_impl; [done|]; by intros ? [??]).
    unfold float64_of_uint64. rewrite !add_exact by lia.
    rewrite IH by (done || lia). by rewrite !Z.add_assoc.
Qed.

(** C9, as stated, fails: over the same three interfaces the received total
    is [2^53] when the loop meets the large counter first and [2^53 + 2] when
    it meets it last; only the second is the sum. *)
Lemma calcNetwork_order_dependent :
  @calcNetwork range_forward networks_large
  ≠ @calcNetwork range_backward networks_large
  ∧ (@calcNetwork range_forward networks_large).1 = of_Z (2 ^ 53)
  ∧ (@calcNetwork range_backward networks_large).1 = of_Z (2 ^ 53 + 2)
  ∧ rx_total networks_large = 2 ^ 53 + 2.
Proof. repeat split; by vm_compute. Qed.

(** Below [2^53] the totals are the exact sums, for every order of the loop. *)
Lemma calcNetwork_exact `{MapRange} (network : gmap string network_stats) :
  map_Forall (λ _ v, 0 ≤ RxBytes v ∧ 0 ≤ TxBytes v) network →
  rx_total network < 2 ^ 53 →
  tx_total network < 2 ^ 53 →
  calcNetwork network
  = (float64_of_uint64 (rx_total network), float64_of_uint64 (tx_total network)).
Proof.
  intros Hwf Hrx Htx.
  unfold calcNetwork, rx_total, tx_total, float64_of_uint64 in *.
  pose proof (range_perm _ network) as Hperm.
  rewrite <- (sum_with_perm _ _ _ Hperm) in Hrx |- *.
  rewrite <- (sum_with_perm _ _ _ Hperm) in Htx |- *.
  change zero with (of_Z 0). rewrite calcNetwork_loop; [done| |lia..].
  apply map_Forall_to_list in Hwf. rewrite <- Hperm in Hwf.
  eapply Forall_impl; [exact Hwf|]. by intros [??].
Qed.

(** C9 (amended): for a network mapping whose received and transmitted
    byte totals are each below [2^53], the rx and tx totals are the sums of
    [RxBytes] and [TxBytes] over all the interfaces, whatever the order in
    which the loop visits the keys; beyond that bound the float64 additions
    round and the totals depend on the order. *)
Theorem calcNetwork_spec (R R' : MapRange) (network : gmap string network_stats) :
  map_Forall (λ _ v, 0 ≤ RxBytes v ∧ 0 ≤ TxBytes v) network →
  rx_total network < 2 ^ 53 →
  tx_total network < 2 ^ 53 →
  @calcNetwork R network
  = (float64_of_uint64 (rx_total network), float64_of_uint64 (tx_total network))
  ∧ @calcNetwork R' network = @calcNetwork R network.
Proof.
  intros Hwf Hrx Htx. split; [by apply calcNetwork_exact|].
  by rewrite !calcNetwork_exact.
Qed.

Lemma calcNetwork_spec_witness :
  @calcNetwork range_backward networks_sample = (of_Z 1540, of_Z 740)
  ∧ @calcNetwork range_forward networks_sample
    = @calcNetwork range_backward networks_sample.
Proof.
  apply (calcNetwork_spec range_backward range_forward networks_sample).
  - apply map_Forall_to_list. vm_compute. repeat constructor; discriminate.
  - by vm_compute.
  - by vm_compute.
Defined.

End Network.

(** * Labels *)

Section Labels.
Context (dc : Docker) `{MapRange}.

Lemma getLabels_step_lookup labels k v name :
  getLabels_step labels (k, v) !! name
  = if decide (source_key name = Some k) then Some v else labels !! name.
Proof.
  unfold getLabels_step, string_at, KubernetesLabels, source_key. simpl.
  rewrite !lookup_insert, lookup_empty.
  repeat case_decide; simplify_eq; simpl;
    try (rewrite bool_decide_eq_true_2 by done);
    try (rewrite bool_decide_eq_false_2 by (by intros []));
    rewrite ?lookup_insert_eq, ?lookup_insert_ne by done; done.
Qed.

(** The labels after the loop: a vocabulary entry whose key the loop met
    holds the value met, every other name is as before the loop. *)
Lemma getLabels_loop (l : list (string * string)) : ∀ labels name,
  NoDup l.*1 →
  foldl getLabels_step labels l !! name
  = match source_key name with
    | Some k =>
        match (list_to_map l : gmap string string) !! k with
        | Some v => Some v
        | None => labels !! name
        end
    | None => labels !! name
    end.
Proof.
  induction l as [|[k0 v0] l IH]; intros labels name Hnd.
  - simpl. by destruct (source_key name).
  - apply NoDup_cons in Hnd as [Hk0 Hnd]. cbn [foldl].
    rewrite IH, getLabels_step_lookup by done.
    destruct (source_key name) as [k|]; [|by rewrite decide_False].
    simpl. rewrite lookup_insert. destruct (decide (k0 = k)) as [->|Hk].
    + rewrite (not_elem_of_list_to_map_1 _ _ Hk0). by rewrite decide_True.
    + by rewrite decide_False by congruence.
Qed.

Lemma kube_projection_lookup labels name :
  kube_projection labels !! name = (k ← source_key name; labels !! k).
Proof.
  unfold kube_projection, from_key, source_key. rewrite !lookup_union.
  repeat case_decide; simplify_eq; simpl;
    repeat (match goal with |- context [match ?o with _ => _ end] =>
              destruct o eqn:? end);
    rewrite ?lookup_singleton_eq, ?lookup_singleton_ne, ?lookup_empty by done;
    done.
Qed.

Lemma getLabels_loop_projection (labels : gmap string string) :
  foldl getLabels_step ∅ (range labels) = kube_projection labels.
Proof.
  pose proof (range_perm _ labels) as Hperm.
  apply map_eq. intros name.
  rewrite getLabels_loop, kube_projection_lookup.
  - rewrite <- (list_to_map_flip labels (range labels)) by done.
    rewrite lookup_empty. destruct (source_key name) as [k|]; simpl; [|done].
    by destruct (labels !! k).
  - rewrite Hperm. apply NoDup_fst_map_to_list.
Qed.

(** Setting the labels of an entry leaves its other fields as they were. *)
Lemma set_labels_fields stats labels :
  EntryLabels (set_labels stats labels) = Some labels
  ∧ ContainerID (set_labels stats labels) = ContainerID stats
  ∧ ContainerName (set_labels stats labels) = ContainerName stats
  ∧ float_fields (set_labels stats labels) = float_fields stats.
Proof. by destruct stats. Qed.

(** C10: when the inspection succeeds, [getLabels] returns the entry with its
    label map set to the projection of the container's labels through the
    three-key vocabulary, whatever the order of the loop, and its other
    fields unchanged: each output name holds the value of its vocabulary
    key, and no other name is present; the labels
    {"io.kubernetes.pod.name": "x", "unrelated": "y"} yield exactly
    {kubernetes_pod_name: "x"}. *)
Theorem getLabels_projects (stats : StatsEntry) (config : container_config) :
  ContainerInspect dc (ContainerID stats) = ({| Config := Some config |}, None) →
  ∃ s' labels,
    getLabels dc stats = Run [] (Done s')
    ∧ EntryLabels s' = Some labels
    ∧ ContainerID s' = ContainerID stats
    ∧ ContainerName s' = ContainerName stats
    ∧ float_fields s' = float_fields stats
    ∧ labels !! "kubernetes_pod_namespace"
      = Labels config !! "io.kubernetes.pod.namespace"
    ∧ labels !! "kubernetes_pod_name" = Labels config !! "io.kubernetes.pod.name"
    ∧ labels !! "kubernetes_container_name"
      = Labels config !! "io.kubernetes.container.name"
    ∧ (∀ name, name ≠ "kubernetes_pod_namespace" →
               name ≠ "kubernetes_pod_name" →
               name ≠ "kubernetes_container_name" → labels !! name = None)
    ∧ (Labels config = labels_sample →
       labels = {[ "kubernetes_pod_name" := "x" ]}).
Proof.
  intros Hinspect.
  exists (set_labels stats (kube_projection (Labels config))),
    (kube_projection (Labels config)).
  destruct (set_labels_fields stats (kube_projection (Labels config)))
    as (Hl & Hid & Hname & Hfloats).
  split.
  { unfold getLabels. rewrite Hinspect. cbn -[foldl kube_projection].
    by rewrite getLabels_loop_projection. }
  do 4 (split; [done|]).
  do 3 (split; [by rewrite kube_projection_lookup|]).
  split.
  - intros name H1 H2 H3. rewrite kube_projection_lookup. unfold source_key.
    by rewrite !decide_False by done.
  - intros ->. reflexivity.
Qed.

(** C4, on the code: when the inspection fails the client is rebuilt and the
    warning logged, but with the response the client returns on failure,
    whose [Config] is nil, reading [info.Config.Labels] panics. *)
Theorem getLabels_inspect_failure_panics (stats : StatsEntry) (err : error) :
  ContainerInspect dc (ContainerID stats) = inspect_failed err →
  NewClientWithOpts dc = None →
  getLabels dc stats = Run [SetClient; Sleep 200; Warn err] Panicked.
Proof.
  intros Hinspect Hnew. unfold getLabels, newDockerClient.
  by rewrite Hinspect, Hnew.
Qed.

(** With a response that still carries a [Config], the same failure goes on
    to the loop: the labels are those of the response. *)
Lemma getLabels_inspect_failure_config stats config err :
  ContainerInspect dc (ContainerID stats) = ({| Config := Some config |}, Some err) →
  NewClientWithOpts dc = None →
  getLabels dc stats
  = Run [SetClient; Sleep 200; Warn err]
        (Done (set_labels stats (kube_projection (Labels config)))).
Proof.
  intros Hinspect Hnew. unfold getLabels, newDockerClient.
  rewrite Hinspect, Hnew. cbn -[foldl kube_projection].
  by rewrite getLabels_loop_projection.
Qed.

(** Whatever the error, an inspection response with a nil [Config] ends
    [getLabels]: it panics, or exits when no client can be built. *)
Lemma getLabels_nil_config stats :
  Config (ContainerInspect dc (ContainerID stats)).1 = None →
  completes (getLabels dc stats) = false.
Proof.
  unfold getLabels, newDockerClient.
  destruct (ContainerInspect dc (ContainerID stats)) as [[[config|]] [err|]];
    destruct (NewClientWithOpts dc); done.
Qed.

(** [getLabels] never puts anything on the channel. *)
Lemma getLabels_sends_nothing stats : sent (getLabels dc stats) = [].
Proof.
  unfold getLabels, newDockerClient.
  destruct (ContainerInspect dc (ContainerID stats)) as [[[config|]] [err|]];
    destruct (NewClientWithOpts dc); done.
Qed.

End Labels.

Lemma getLabels_projects_witness :
  ∃ s' labels,
    @getLabels (dc_healthy "linux") range_backward entry_derived
    = Run [] (Done s')
    ∧ EntryLabels s' = Some labels
    ∧ ContainerID s' = "c1"
    ∧ ContainerName s' = "/web"
    ∧ float_fields s' = float_fields entry_derived
    ∧ labels = {[ "kubernetes_pod_name" := "x" ]}.
Proof.
  destruct (getLabels_projects (dc_healthy "linux") (H := range_backward)
              entry_derived {| Labels := labels_sample |} eq_refl)
    as (s' & labels & Hrun & Hlabels & Hid & Hname & Hfloats
        & _ & _ & _ & _ & Hsample).
  exists s', labels. repeat split; try done. by apply Hsample.
Defined.

Lemma getLabels_inspect_failure_panics_witness :
  @getLabels dc_inspect_fails range_forward emptyEntry
  = Run [SetClient; Sleep 200; Warn "connection refused"] Panicked.
Proof.
  exact (getLabels_inspect_failure_panics dc_inspect_fails (H := range_forward)
           emptyEntry "connection refused" eq_refl eq_refl).
Defined.

(** * Goroutines *)

(** One step of evaluation of a goroutine. *)
Ltac go_step :=
  cbn [mbind Go_bind mret Go_ret deref when_err emit panic fatal
       outcome events app].

Section Goroutines.
Context {A B : Type}.

Lemma outcome_bind (m : Go A) (f : A → Go B) :
  outcome (m ≫= f)
  = match outcome m with
    | Done a => outcome (f a)
    | Panicked => Panicked
    | Exited => Exited
    end.
Proof. unfold mbind, Go_bind. by destruct (outcome m). Qed.

Lemma sent_bind (m : Go A) (f : A → Go B) :
  sent (m ≫= f)
  = sent m ++ match outcome m with Done a => sent (f a) | _ => [] end.
Proof.
  unfold mbind, Go_bind, sent.
  destruct (outcome m); simpl; by rewrite ?omap_app, ?app_nil_r.
Qed.

Lemma completes_bind (m : Go A) (f : A → Go B) :
  completes (m ≫= f)
  = match outcome m with Done a => completes (f a) | _ => false end.
Proof. unfold completes. rewrite outcome_bind. by destruct (outcome m). Qed.

End Goroutines.

(** * Snapshots *)

Section Snapshots.
Import Float64.
Context (dc : Docker) `{MapRange}.

(** [getStats] never puts anything on the channel. *)
Lemma getStats_sends_nothing response : sent (getStats dc response) = [].
Proof.
  unfold getStats. destruct (Body response) as [body|]; [|done]. go_step.
  destruct (read_error body); [done|].
  destruct (json_Unmarshal dc (content body)) as [[v|] [err|]]; try done.
  go_step.
  repeat (match goal with |- context [let '(_, _) := ?p in _] => destruct p end).
  done.
Qed.

(** A snapshot from a runtime that is not Windows: every field is derived. *)
Lemma getStats_derived response body v :
  OSType response ≠ "windows" →
  Body response = Some body →
  read_error body = None →
  json_Unmarshal dc (content body) = (Some v, None) →
  getStats dc response =
    Run [] (Done
      ({| ContainerID := ID v; ContainerName := Name v;
          CPUPercentage :=
            calcCPUPercent (TotalUsage (CPUUsage (PreCPUStats v)))
                           (SystemUsage (PreCPUStats v)) v;
          Memory := calcMemUsageNoCache (MemoryStats v);
          MemoryPercentage :=
            calcMemPercentNoCache (float64_of_uint64 (Limit (MemoryStats v)))
                                  (calcMemUsageNoCache (MemoryStats v));
          MemoryLimit := float64_of_uint64 (Limit (MemoryStats v));
          NetworkRx := (calcNetwork (Networks v)).1;
          NetworkTx := (calcNetwork (Networks v)).2;
          BlockRead := (calcBlockIO (BlkioStats v)).1;
          BlockWrite := (calcBlockIO (BlkioStats v)).2;
          EntryLabels := None |}, None)).
Proof.
  intros Hos Hbody Hread Hjson. unfold getStats.
  rewrite Hbody. go_step. rewrite Hread, Hjson. go_step.
  rewrite bool_decide_eq_true_2 by done.
  destruct (calcBlockIO (BlkioStats v)), (calcNetwork (Networks v)). done.
Qed.



(** A response without a [Body] makes [getStats] panic in
    [ioutil.ReadAll]. *)
Lemma getStats_nil_body response :
  Body response = None → outcome (getStats dc response) = Panicked.
Proof. intros Hbody. unfold getStats. by rewrite Hbody. Qed.

(** The entry [getStats] returns with an error is the zero entry. *)
Lemma getStats_error_entry response s err :
  outcome (getStats dc response) = Done (s, Some err) → s = emptyEntry.
Proof.
  unfold getStats. destruct (Body response) as [body|]; [|done]. go_step.
  destruct (read_error body); [by intros [= <- _]|].
  destruct (json_Unmarshal dc (content body)) as [[v|] [e|]]; go_step;
    try done; try (by intros [= <- _]).
  repeat (match goal with |- context [let '(_, _) := ?p in _] => destruct p end).
  done.
Qed.

End Snapshots.




(** The same snapshot from a Linux runtime, for comparison. *)
Lemma getStats_linux_sample :
  @getStats (dc_healthy "linux") range_forward
    (ContainerStats (dc_healthy "linux") "c1").1
  = Run [] (Done
      ({| ContainerID := "c1"; ContainerName := "/web";
          CPUPercentage := Float64.of_Z 40; Memory := Float64.of_Z 4096;
          MemoryPercentage := Float64.div (Float64.of_Z 100) (Float64.of_Z 256);
          MemoryLimit := Float64.of_Z 1048576;
          NetworkRx := Float64.of_Z 1540; NetworkTx := Float64.of_Z 740;
          BlockRead := Float64.of_Z 10; BlockWrite := Float64.of_Z 20;
          EntryLabels := None |}, None)).
Proof. by vm_compute. Qed.

(** * The collection cycle *)

Section Interleavings.
Context {A : Type}.
Implicit Types (l out : list A) (ls : list (list A)).

Lemma interleaving_length ls out :
  interleaving ls out → length out = length (concat ls).
Proof.
  induction 1 as [ls Hnil|i x l ls out Hi _ IH].
  - induction Hnil as [|l ls -> _ IHls]; [done|]. done.
  - simpl. rewrite IH. clear IH.
    pose proof (lookup_lt_Some _ _ _ Hi) as Hlt.
    rewrite insert_take_drop by done.
    rewrite <- (take_drop_middle ls i (x :: l) Hi) at 3.
    rewrite !concat_app. simpl. rewrite !length_app. simpl.
    rewrite length_app. lia.
Qed.

Lemma interleaving_singleton l out : interleaving [l] out → out = l.
Proof.
  remember [l] as ls eqn:Hls. intros Hin. revert l Hls.
  induction Hin as [ls Hnil|i x l' ls out Hi _ IH]; intros l ->.
  - by apply Forall_cons in Hnil as [-> _].
  - destruct i as [|i]; [|done]. simpl in Hi. injection Hi as ->.
    f_equal. by apply IH.
Qed.

(** The workers may run one after the other. *)
Lemma interleaving_concat ls : interleaving ls (concat ls).
Proof.
  assert (Hgen : ∀ finished, Forall (λ l, l = []) finished →
            interleaving (finished ++ ls) (concat ls)).
  { induction ls as [|l ls IH]; intros finished Hfin.
    - rewrite app_nil_r. by constructor.
    - induction l as [|x l IHl]; simpl.
      + rewrite (cons_middle [] finished ls), app_assoc. apply IH.
        apply Forall_app. by split; [|constructor].
      + apply (interleaving_next (length finished) x l).
        * by rewrite lookup_app_r, Nat.sub_diag by lia.
        * rewrite insert_app_r_alt, Nat.sub_diag by lia. apply IHl. }
  apply (Hgen []). constructor.
Qed.

End Interleavings.

Section Collection.
Context (dc : Docker) `{MapRange}.

Lemma when_err_placeholder err :
  outcome (when_err err (λ _, emit (Send emptyEntry))) = Done tt
  ∧ sent (when_err err (λ _, emit (Send emptyEntry))) = placeholder err.
Proof. by destruct err. Qed.

(** What a worker sends and whether it runs to its end. *)
Lemma worker_sent containerID :
  sent (worker dc containerID)
  = placeholder (ContainerStats dc containerID).2
    ++ match outcome (getStats dc (ContainerStats dc containerID).1) with
       | Done (s, err) =>
           placeholder err
           ++ match outcome (getLabels dc s) with
              | Done s' => [s']
              | _ => []
              end
       | _ => []
       end.
Proof.
  unfold worker. destruct (ContainerStats dc containerID) as [resp err].
  cbn [fst snd].
  rewrite sent_bind, (proj1 (when_err_placeholder err)),
    (proj2 (when_err_placeholder err)). f_equal.
  rewrite sent_bind, getStats_sends_nothing. cbn [app].
  destruct (outcome (getStats dc resp)) as [[s err']| |]; [|done..].
  rewrite sent_bind, (proj1 (when_err_placeholder err')),
    (proj2 (when_err_placeholder err')). f_equal.
  rewrite sent_bind, getLabels_sends_nothing. cbn [app].
  by destruct (outcome (getLabels dc s)).
Qed.

Lemma worker_completes containerID :
  completes (worker dc containerID)
  = match outcome (getStats dc (ContainerStats dc containerID).1) with
    | Done (s, _) => completes (getLabels dc s)
    | _ => false
    end.
Proof.
  unfold worker. destruct (ContainerStats dc containerID) as [resp err].
  cbn [fst snd].
  rewrite completes_bind, (proj1 (when_err_placeholder err)), completes_bind.
  destruct (outcome (getStats dc resp)) as [[s err']| |]; [|done..].
  rewrite completes_bind, (proj1 (when_err_placeholder err')), completes_bind.
  unfold completes. by destruct (outcome (getLabels dc s)).
Qed.

(** A container whose fetch, derivation and inspection all succeed yields
    exactly one entry. *)
Lemma worker_success containerID s s' :
  (ContainerStats dc containerID).2 = None →
  outcome (getStats dc (ContainerStats dc containerID).1) = Done (s, None) →
  outcome (getLabels dc s) = Done s' →
  sent (worker dc containerID) = [s'] ∧ completes (worker dc containerID) = true.
Proof.
  intros Hfetch Hstats Hlabels.
  rewrite worker_sent, worker_completes, Hfetch, Hstats. unfold completes.
  by rewrite Hlabels.
Qed.

(** A container whose fetch or derivation fails never yields exactly one
    entry: its worker sends two or three, or dies. *)
Lemma worker_failure containerID :
  worker_fails dc containerID →
  completes (worker dc containerID) = true →
  (2 ≤ length (sent (worker dc containerID)) ≤ 3)%nat.
Proof.
  unfold worker_fails. rewrite worker_sent, worker_completes. unfold completes.
  intros Hfail Hdone.
  destruct (outcome (getStats dc (ContainerStats dc containerID).1))
    as [[s err]| |]; [|done..].
  destruct (outcome (getLabels dc s)); [|done..].
  destruct Hfail as [Hfetch|(s0 & err0 & [= <- ->])].
  - destruct ((ContainerStats dc containerID).2); [|done].
    destruct err; simpl; lia.
  - destruct ((ContainerStats dc containerID).2); simpl; lia.
Qed.

Lemma List_in_turn_returns stats err :
  List_in_turn dc = Some (stats, err) → List_returns dc stats err.
Proof.
  unfold List_in_turn.
  destruct (ContainerList dc) as [containers [e|]] eqn:Hlist.
  - intros [= <- <-]. by eapply List_listing_failed.
  - destruct (forallb completes (workers dc containers)) eqn:Hall; [|done].
    intros [= <- <-]. eapply List_collected; [done| |apply interleaving_concat].
    apply Forall_forall. intros w Hw.
    apply forallb_forall with (x := w) in Hall; [done|].
    by apply list_elem_of_In.
Qed.

(** Whatever the schedule, [List] returns as many entries as its workers
    sent. *)
Lemma List_returns_length stats :
  List_returns dc stats None →
  length stats = length (concat (sent <$> workers dc (ContainerList dc).1)).
Proof.
  inversion 1 as [|containers stats' Hlist Hall Hinter]; subst.
  by rewrite (interleaving_length _ _ Hinter), Hlist.
Qed.

(** C3: when the listing call fails, [List] returns the empty sequence with
    that error, starts no worker and cannot die; and an error returned by
    [List] is always the error of the listing call, with the empty
    sequence. *)
Theorem List_listing_failure :
  (∀ err, (ContainerList dc).2 = Some err →
     List_returns dc [] (Some err)
     ∧ ¬ List_crashes dc
     ∧ ∀ stats e, List_returns dc stats e → stats = [] ∧ e = Some err)
  ∧ (∀ stats err, List_returns dc stats (Some err) →
       stats = [] ∧ (ContainerList dc).2 = Some err).
Proof.
  split.
  - intros err Hlist. destruct (ContainerList dc) as [containers e] eqn:Hl.
    simpl in Hlist. subst e. split; [|split].
    + by eapply List_listing_failed.
    + intros (cs & Hcs & _). congruence.
    + intros stats e. inversion 1; subst; [split; congruence|congruence].
  - intros stats err. inversion 1 as [containers e Hlist|]; subst.
    by rewrite Hlist.
Qed.

(** A worker that runs to its end has sent at least one entry. *)
Lemma worker_sends_some containerID :
  completes (worker dc containerID) = true →
  (1 ≤ length (sent (worker dc containerID)))%nat.
Proof.
  rewrite worker_sent, worker_completes. unfold completes.
  destruct (outcome (getStats dc (ContainerStats dc containerID).1))
    as [[s err]| |]; [|done..].
  destruct (outcome (getLabels dc s)); [|done..]. intros _.
  rewrite !length_app. simpl. lia.
Qed.

Lemma workers_sent_length containers :
  Forall (λ w, completes w = true) (workers dc containers) →
  (length containers ≤ length (concat (sent <$> workers dc containers)))%nat
  ∧ (Exists (λ c, worker_fails dc (Container_ID c)) containers →
     (length containers < length (concat (sent <$> workers dc containers)))%nat).
Proof.
  induction containers as [|c containers IH].
  - intros _. split; [done|]. by intros ?%Exists_nil.
  - change (workers dc (c :: containers))
      with (worker dc (Container_ID c) :: workers dc containers).
    intros [Hc Hall]%Forall_cons. destruct (IH Hall) as [Hle Hlt].
    pose proof (worker_sends_some _ Hc).
    rewrite fmap_cons. cbn [concat length]. rewrite length_app.
    split; [lia|]. intros [Hfail|Hrest]%Exists_cons.
    + pose proof (worker_failure _ Hfail Hc). lia.
    + specialize (Hlt Hrest). lia.
Qed.

(** When the fetch, the derivation and the inspection succeed for every
    container, the result has one entry per container. *)
Lemma List_success_length containers stats err :
  ContainerList dc = (containers, None) →
  Forall (λ c, worker_succeeds dc (Container_ID c)) containers →
  List_returns dc stats err →
  err = None ∧ length stats = length containers.
Proof.
  intros Hlist Hok.
  inversion 1 as [? ? Hlist'|containers' stats' Hlist' Hall Hinter]; subst;
    [congruence|].
  rewrite Hlist in Hlist'. injection Hlist' as <-. split; [done|].
  rewrite (interleaving_length _ _ Hinter). clear Hall Hinter Hlist.
  induction Hok as [|c containers (Hfetch & s & s' & Hs & Hl) _ IH]; [done|].
  change (workers dc (c :: containers))
    with (worker dc (Container_ID c) :: workers dc containers).
  rewrite fmap_cons. cbn [concat length]. rewrite length_app, IH.
  by rewrite (proj1 (worker_success _ s s' Hfetch Hs Hl)).
Qed.

(** One worker that does not run to its end is enough: the process dies
    and [List] never returns. *)
Lemma List_worker_dies containers c :
  ContainerList dc = (containers, None) →
  c ∈ containers →
  completes (worker dc (Container_ID c)) = false →
  List_crashes dc ∧ ∀ stats err, ¬ List_returns dc stats err.
Proof.
  intros Hlist Hc Hdies.
  assert (Hw : worker dc (Container_ID c) ∈ workers dc containers)
    by (unfold workers;
        by apply (list_elem_of_fmap_2 (λ c, worker dc (Container_ID c)))).
  split.
  - exists containers. split; [done|]. apply Exists_exists. eauto.
  - intros stats err.
    inversion 1 as [? ? Hlist'|containers' stats' Hlist' Hall _]; subst;
      [congruence|].
    rewrite Hlist in Hlist'. injection Hlist' as <-.
    rewrite Forall_forall in Hall. specialize (Hall _ Hw). congruence.
Qed.

(** With the Docker client, a worker whose fetch or derivation fails sends
    the placeholder and then dies: after a failed fetch [getStats] reads the
    nil [Body]; after a failed derivation [getLabels] inspects the empty ID
    of the zero entry and reads the nil [Config]. *)
Lemma worker_fails_dies containerID :
  docker_client dc →
  worker_fails dc containerID →
  sent (worker dc containerID) = [emptyEntry]
  ∧ completes (worker dc containerID) = false.
Proof.
  intros (Hfetch & Hconfig & _) Hfail.
  rewrite worker_sent, worker_completes.
  destruct ((ContainerStats dc containerID).2) as [e|] eqn:Herr.
  - rewrite (getStats_nil_body dc) by (apply Hfetch; by rewrite Herr). done.
  - destruct Hfail as [?|(s & err & Hstats)]; [done|].
    rewrite Hstats. apply getStats_error_entry in Hstats as ->.
    pose proof (getLabels_nil_config dc emptyEntry Hconfig) as Hdies.
    split; [|done]. unfold completes in Hdies.
    by destruct (outcome (getLabels dc emptyEntry)).
Qed.

(** C1, on the code: with the Docker client, as soon as the stats fetch or
    the derivation fails for one of the listed containers, its worker sends
    the placeholder and, with no return after it, goes on and dies: the
    process ends and [List] returns nothing, neither entries nor an error. *)
Theorem List_failed_container_crashes containers c :
  docker_client dc →
  ContainerList dc = (containers, None) →
  c ∈ containers →
  worker_fails dc (Container_ID c) →
  sent (worker dc (Container_ID c)) = [emptyEntry]
  ∧ completes (worker dc (Container_ID c)) = false
  ∧ List_crashes dc
  ∧ ∀ stats err, ¬ List_returns dc stats err.
Proof.
  intros Hclient Hlist Hc Hfail.
  destruct (worker_fails_dies _ Hclient Hfail) as [Hsent Hdies].
  split; [done|]. split; [done|]. by apply (List_worker_dies containers c).
Qed.

(** With a single container listed, [List] returns what its worker sent,
    provided the worker runs to its end. *)
Lemma List_single containerID stats err :
  ContainerList dc = ([ {| Container_ID := containerID |} ], None) →
  List_returns dc stats err ↔
    err = None ∧ completes (worker dc containerID) = true
    ∧ stats = sent (worker dc containerID).
Proof.
  intros Hlist. split.
  - inversion 1 as [? ? Hlist'|containers stats' Hlist' Hall Hinter]; subst;
      [congruence|].
    rewrite Hlist in Hlist'. injection Hlist' as <-. simpl in *.
    apply Forall_cons in Hall as [Hdone _].
    by apply interleaving_singleton in Hinter as ->.
  - intros (-> & Hdone & ->). apply List_in_turn_returns.
    unfold List_in_turn. rewrite Hlist. simpl. rewrite Hdone. simpl.
    by rewrite app_nil_r.
Qed.

Lemma List_single_crashes containerID :
  ContainerList dc = ([ {| Container_ID := containerID |} ], None) →
  completes (worker dc containerID) = false →
  List_crashes dc ∧ ∀ stats err, ¬ List_returns dc stats err.
Proof.
  intros Hlist Hdies. split.
  - exists [ {| Container_ID := containerID |} ]. split; [done|].
    by apply Exists_cons_hd.
  - intros stats err (_ & Hdone & _)%(List_single containerID); [|done].
    congruence.
Qed.

End Collection.

(** * The engine on the sample daemons *)

Lemma List_listing_failure_witness :
  @List_returns dc_listing_fails range_forward []
    (Some "cannot connect to the Docker daemon"%string)
  ∧ ¬ @List_crashes dc_listing_fails range_forward
  ∧ ∀ stats e, @List_returns dc_listing_fails range_forward stats e →
      stats = [] ∧ e = Some "cannot connect to the Docker daemon"%string.
Proof.
  exact (proj1 (List_listing_failure dc_listing_fails (H := range_forward))
           "cannot connect to the Docker daemon"%string eq_refl).
Defined.

(** A healthy container: one entry, fully populated. *)
Lemma List_healthy stats err :
  @List_returns (dc_healthy "linux") range_forward stats err
  ↔ err = None ∧ stats = [entry_sample].
Proof.
  rewrite (List_single (dc_healthy "linux") "c1") by done.
  assert (@worker (dc_healthy "linux") range_forward "c1"
          = Run [Send entry_sample] (Done tt)) as -> by reflexivity.
  split; [by intros (-> & _ & ->)|by intros [-> ->]].
Qed.

(** The sample daemons behave as the Docker client does. *)
Lemma docker_client_bad_body : docker_client dc_bad_body_checked.
Proof. split; [by intros id []|]. by split. Defined.

Lemma docker_client_fetch_fails : docker_client dc_fetch_fails.
Proof.
  split; [|by split]. intros id. simpl. by destruct (decide (id = "c2")).
Qed.

Lemma docker_client_healthy os : docker_client (dc_healthy os).
Proof. split; [by intros id []|]. by split. Qed.

Lemma worker_fails_bad_body :
  @worker_fails dc_bad_body_checked range_forward "c1".
Proof. right. by exists emptyEntry, "invalid character"%string. Defined.

Lemma List_failed_container_crashes_witness :
  sent (@worker dc_bad_body_checked range_forward "c1") = [emptyEntry]
  ∧ completes (@worker dc_bad_body_checked range_forward "c1") = false
  ∧ @List_crashes dc_bad_body_checked range_forward
  ∧ ∀ stats err, ¬ @List_returns dc_bad_body_checked range_forward stats err.
Proof.
  apply (List_failed_container_crashes dc_bad_body_checked (H := range_forward)
           [ {| Container_ID := "c1" |} ] {| Container_ID := "c1" |}
           docker_client_bad_body eq_refl).
  - apply list_elem_of_here.
  - exact worker_fails_bad_body.
Defined.

(** The stats fetch of the second of two containers fails: its worker sends
    the placeholder, reads the nil [Body] and the process dies. *)
Lemma List_fetch_fails :
  sent (@worker dc_fetch_fails range_forward "c2") = [emptyEntry]
  ∧ @List_crashes dc_fetch_fails range_forward
  ∧ ∀ stats err, ¬ @List_returns dc_fetch_fails range_forward stats err.
Proof.
  assert (Hfail : @worker_fails dc_fetch_fails range_forward "c2") by (by left).
  destruct (worker_fails_dies dc_fetch_fails (H := range_forward) "c2"
              docker_client_fetch_fails Hfail) as [Hsent Hdies].
  split; [done|].
  apply (List_worker_dies dc_fetch_fails (H := range_forward)
           [ {| Container_ID := "c1" |}; {| Container_ID := "c2" |} ]
           {| Container_ID := "c2" |} eq_refl); [|done].
  apply list_elem_of_further, list_elem_of_here.
Qed.

(** The stats body of the only container is not valid JSON: the zero entry
    goes on to label enrichment, the client refuses its empty ID and
    [getLabels] panics. *)
Lemma List_bad_body_checked :
  @List_crashes dc_bad_body_checked range_forward
  ∧ ∀ stats err, ¬ @List_returns dc_bad_body_checked range_forward stats err.
Proof. by apply (List_single_crashes dc_bad_body_checked "c1"). Qed.

(** The inspection of a healthy container fails: the process dies. *)
Lemma List_inspect_failure :
  @List_crashes dc_inspect_fails range_forward
  ∧ ∀ stats err, ¬ @List_returns dc_inspect_fails range_forward stats err.
Proof. by apply (List_single_crashes dc_inspect_fails "c1"). Qed.

(** * Further properties of the engine *)

Section SnapshotOutcomes.
Context (dc : Docker) `{MapRange}.

(** How [getStats] ends: it emits nothing and never exits; a nil [Body] or a
    document that decodes to a nil pointer makes it panic; a read error or a
    decoding error is returned together with the zero entry; otherwise the
    entry carries the ID and the name of the snapshot, no labels yet, and no
    error. *)
Theorem getStats_outcomes (response : container_stats) :
  events (getStats dc response) = []
  ∧ outcome (getStats dc response) ≠ Exited
  ∧ (Body response = None → outcome (getStats dc response) = Panicked)
  ∧ (∀ body, Body response = Some body →
       match read_error body, json_Unmarshal dc (content body) with
       | Some err, _ | None, (_, Some err) =>
           outcome (getStats dc response) = Done (emptyEntry, Some err)
       | None, (None, None) => outcome (getStats dc response) = Panicked
       | None, (Some v, None) =>
           ∃ s, outcome (getStats dc response) = Done (s, None)
                ∧ ContainerID s = ID v ∧ ContainerName s = Name v
                ∧ EntryLabels s = None
       end).
Proof.
  unfold getStats. destruct (Body response) as [body|]; [|by repeat split].
  go_step. destruct (read_error body) as [err|] eqn:Hread.
  { repeat split; try done. intros ? [= <-]. by rewrite Hread. }
  destruct (json_Unmarshal dc (content body)) as [[v|] [err|]] eqn:Hjson;
    go_step.
  1,3,4: repeat split; try done; intros ? [= <-]; by rewrite Hread, Hjson.
  destruct (bool_decide (OSType response ≠ "windows"));
    destruct (calcBlockIO (BlkioStats v)), (calcNetwork (Networks v));
    (repeat split; try done; intros ? [= <-]; rewrite Hread, Hjson;
     by eexists).
Qed.

(** How [getLabels] ends.  A successful inspection emits nothing; a failed
    one rebuilds the client, sleeps 200 ms and logs the error, or exits when
    no client can be built.  Then a nil [Config] makes it panic; otherwise
    the entry comes back with every field but the labels unchanged, and the
    labels are a map whose keys are among the three output names. *)
Theorem getLabels_outcomes (stats : StatsEntry) info err :
  ContainerInspect dc (ContainerID stats) = (info, err) →
  events (getLabels dc stats)
  = match err, NewClientWithOpts dc with
    | None, _ | Some _, Some _ => []
    | Some e, None => [SetClient; Sleep 200; Warn e]
    end
  ∧ match err, NewClientWithOpts dc, Config info with
    | Some _, Some _, _ => outcome (getLabels dc stats) = Exited
    | _, _, None => outcome (getLabels dc stats) = Panicked
    | _, _, Some config =>
        ∃ s' labels,
          outcome (getLabels dc stats) = Done s'
          ∧ EntryLabels s' = Some labels
          ∧ ContainerID s' = ContainerID stats
          ∧ ContainerName s' = ContainerName stats
          ∧ float_fields s' = float_fields stats
          ∧ dom labels ⊆ output_names
          ∧ ∀ name, labels !! name = (k ← source_key name; Labels config !! k)
    end.
Proof.
  intros Hinspect. unfold getLabels, newDockerClient. rewrite Hinspect.
  assert (Hdom : ∀ config,
    dom (foldl getLabels_step ∅ (range (Labels config))) ⊆ output_names).
  { intros config name [v Hv]%elem_of_dom.
    rewrite getLabels_loop_projection, kube_projection_lookup in Hv.
    unfold source_key, output_names in *.
    repeat case_decide; simplify_eq; set_solver. }
  destruct err as [e|], (NewClientWithOpts dc) as [e'|],
    (Config info) as [config|]; go_step; cbn -[foldl kube_projection dom];
    (split; [done|]); try done;
    (eexists _, _; split; [done|]);
    (destruct (set_labels_fields stats
                 (foldl getLabels_step ∅ (range (Labels config))))
       as (Hl & Hid & Hname & Hfloats));
    (do 4 (split; [done|])); (split; [apply Hdom|]);
    intros name; by rewrite getLabels_loop_projection, kube_projection_lookup.
Qed.

End SnapshotOutcomes.

Lemma getStats_outcomes_witness :
  outcome (@getStats dc_fetch_fails range_forward
             (ContainerStats dc_fetch_fails "c2").1) = Panicked.
Proof.
  exact (proj1 (proj2 (proj2 (getStats_outcomes dc_fetch_fails
                                (H := range_forward)
                                (ContainerStats dc_fetch_fails "c2").1)))
           eq_refl).
Defined.

Lemma getLabels_outcomes_witness :
  events (@getLabels (dc_healthy "linux") range_forward entry_derived) = []
  ∧ ∃ s' labels,
      outcome (@getLabels (dc_healthy "linux") range_forward entry_derived)
      = Done s'
      ∧ EntryLabels s' = Some labels
      ∧ ContainerID s' = "c1"
      ∧ ContainerName s' = "/web"
      ∧ float_fields s' = float_fields entry_derived
      ∧ dom labels ⊆ output_names
      ∧ ∀ name, labels !! name = (k ← source_key name; labels_sample !! k).
Proof.
  exact (getLabels_outcomes (dc_healthy "linux") (H := range_forward)
           entry_derived {| Config := Some {| Labels := labels_sample |} |}
           None eq_refl).
Defined.

(** When no client can be built the inspection failure ends the process. *)
Lemma getLabels_no_client :
  events (@getLabels dc_no_client range_forward entry_derived) = []
  ∧ outcome (@getLabels dc_no_client range_forward entry_derived) = Exited.
Proof. by vm_compute. Qed.

Section MoreInterleavings.
Context {A : Type}.
Implicit Types (l out : list A) (ls : list (list A)).

Lemma concat_all_nil ls : Forall (λ l, l = []) ls → concat ls = [].
Proof. induction 1 as [|l ls -> _ IH]; [done|]. by simpl. Qed.

(** An interleaving holds exactly the elements of the sequences merged. *)
Lemma interleaving_perm ls out : interleaving ls out → out ≡ₚ concat ls.
Proof.
  induction 1 as [ls Hnil|i x l ls out Hi _ IH].
  - by rewrite concat_all_nil.
  - pose proof (lookup_lt_Some _ _ _ Hi) as Hlt.
    rewrite IH, insert_take_drop by done.
    rewrite <- (take_drop_middle ls i (x :: l) Hi) at 3.
    rewrite !concat_app. simpl. by rewrite Permutation_middle.
Qed.

End MoreInterleavings.

Section CollectionOutcomes.
Context (dc : Docker) `{MapRange}.

(** A worker sends at most three entries. *)
Lemma worker_sends_at_most_three containerID :
  (length (sent (worker dc containerID)) ≤ 3)%nat.
Proof.
  rewrite worker_sent.
  destruct ((ContainerStats dc containerID).2),
    (outcome (getStats dc (ContainerStats dc containerID).1))
    as [[s [err|]]| |]; simpl; try lia;
    destruct (outcome (getLabels dc s)); simpl; lia.
Qed.

Lemma workers_sent_at_most containers :
  (length (concat (sent <$> workers dc containers)) ≤ 3 * length containers)%nat.
Proof.
  induction containers as [|c containers IH]; [done|].
  change (workers dc (c :: containers))
    with (worker dc (Container_ID c) :: workers dc containers).
  rewrite fmap_cons. cbn [concat length]. rewrite length_app.
  pose proof (worker_sends_at_most_three (Container_ID c)). lia.
Qed.

(** With nothing running, [List] returns the empty sequence and no error,
    and cannot die. *)
Theorem List_nothing_running stats err :
  ContainerList dc = ([], None) →
  (List_returns dc stats err ↔ stats = [] ∧ err = None) ∧ ¬ List_crashes dc.
Proof.
  intros Hlist. split; [split|].
  - inversion 1 as [? ? Hlist'|containers stats' Hlist' Hall Hinter]; subst;
      [congruence|].
    rewrite Hlist in Hlist'. injection Hlist' as <-.
    by apply interleaving_perm, Permutation_nil_r in Hinter.
  - intros [-> ->]. eapply List_collected; [done|constructor|].
    by apply interleaving_done.
  - intros (containers & Hlist' & Hdies). rewrite Hlist in Hlist'.
    injection Hlist' as <-. by apply Exists_nil in Hdies.
Qed.

(** Whenever [List] returns without error, the result holds exactly the
    entries its workers sent, in some order: at least one and at most three
    per listed container. *)
Theorem List_returns_entries containers stats :
  ContainerList dc = (containers, None) →
  List_returns dc stats None →
  stats ≡ₚ concat (sent <$> workers dc containers)
  ∧ (length containers ≤ length stats ≤ 3 * length containers)%nat.
Proof.
  intros Hlist.
  inversion 1 as [|containers' stats' Hlist' Hall Hinter]; subst.
  rewrite Hlist in Hlist'. injection Hlist' as <-.
  pose proof (interleaving_perm _ _ Hinter) as Hperm. split; [done|].
  rewrite Hperm. split.
  - by apply workers_sent_length.
  - apply workers_sent_at_most.
Qed.

(** When the fetch, the derivation and the inspection succeed for every
    listed container, [List] does return, never with an error, and every
    result has exactly one entry per container. *)
Theorem List_all_succeed containers :
  ContainerList dc = (containers, None) →
  Forall (λ c, worker_succeeds dc (Container_ID c)) containers →
  (∃ stats, List_returns dc stats None)
  ∧ ¬ List_crashes dc
  ∧ ∀ stats err, List_returns dc stats err →
      err = None ∧ length stats = length containers.
Proof.
  intros Hlist Hok.
  assert (Hall : Forall (λ w, completes w = true) (workers dc containers)).
  { unfold workers. apply Forall_fmap.
    eapply Forall_impl; [exact Hok|].
    intros c (Hfetch & s & s' & Hs & Hl). simpl.
    exact (proj2 (worker_success dc _ s s' Hfetch Hs Hl)). }
  split; [|split].
  - eexists. eapply List_collected; [done..|apply interleaving_concat].
  - intros (containers' & Hlist' & Hdies). rewrite Hlist in Hlist'.
    injection Hlist' as <-. apply Exists_exists in Hdies as (w & Hw & Hdies).
    rewrite Forall_forall in Hall. specialize (Hall w Hw). congruence.
  - intros stats err.
    inversion 1 as [? ? Hlist'|containers' stats' Hlist' _ Hinter]; subst;
      [congruence|].
    rewrite Hlist in Hlist'. injection Hlist' as <-. split; [done|].
    rewrite (interleaving_length _ _ Hinter). clear Hall Hinter Hlist.
    induction Hok as [|c containers (Hfetch & s & s' & Hs & Hl) _ IH]; [done|].
    change (workers dc (c :: containers))
      with (worker dc (Container_ID c) :: workers dc containers).
    rewrite fmap_cons. cbn [concat length]. rewrite length_app, IH.
    by rewrite (proj1 (worker_success dc _ s s' Hfetch Hs Hl)).
Qed.

(** A stats response without a [Body], which is what the client returns
    when the fetch fails, kills the process: the worker of that container
    panics in [ioutil.ReadAll] and [List] never returns, whatever the other
    containers do. *)
Theorem List_nil_body_never_returns containers c :
  ContainerList dc = (containers, None) →
  c ∈ containers →
  Body (ContainerStats dc (Container_ID c)).1 = None →
  sent (worker dc (Container_ID c))
  = placeholder (ContainerStats dc (Container_ID c)).2
  ∧ List_crashes dc
  ∧ ∀ stats err, ¬ List_returns dc stats err.
Proof.
  intros Hlist Hc Hbody.
  assert (Hpanic : outcome (getStats dc (ContainerStats dc (Container_ID c)).1)
                   = Panicked)
    by (unfold getStats; by rewrite Hbody).
  assert (Hdies : completes (worker dc (Container_ID c)) = false)
    by (by rewrite worker_completes, Hpanic).
  assert (Hw : worker dc (Container_ID c) ∈ workers dc containers)
    by (unfold workers; by apply (list_elem_of_fmap_2 (λ c, worker dc (Container_ID c)))).
  split; [|split].
  - by rewrite worker_sent, Hpanic, app_nil_r.
  - exists containers. split; [done|]. apply Exists_exists. eauto.
  - intros stats err.
    inversion 1 as [? ? Hlist'|containers' stats' Hlist' Hall _]; subst;
      [congruence|].
    rewrite Hlist in Hlist'. injection Hlist' as <-.
    rewrite Forall_forall in Hall. specialize (Hall _ Hw). congruence.
Qed.

(** What the handler of [/stats] writes after [List]: the last call is
    always a 200 carrying the result; when [List] returned an error a 500
    with its message was written first, and the 200 that follows carries an
    empty list. *)
Theorem handler_after_List stats err :
  List_returns dc stats err →
  last (handler stats err)
  = Some (200, {| Response_Stats := Some stats; Response_Msg := "" |})
  ∧ match err with
    | None =>
        handler stats err
        = [ (200, {| Response_Stats := Some stats; Response_Msg := "" |}) ]
    | Some e =>
        handler stats err
        = [ (500, {| Response_Stats := None; Response_Msg := e |});
            (200, {| Response_Stats := Some []; Response_Msg := "" |}) ]
    end.
Proof.
  inversion 1; subst; by split.
Qed.

End CollectionOutcomes.

Lemma List_nothing_running_witness :
  @List_returns dc_idle range_forward [] None
  ∧ ¬ @List_crashes dc_idle range_forward.
Proof.
  destruct (List_nothing_running dc_idle (H := range_forward) [] None eq_refl)
    as [Hiff Hsafe].
  split; [by apply Hiff|exact Hsafe].
Defined.

Lemma workers_two_healthy :
  workers dc_two_healthy (H := range_forward)
    [ {| Container_ID := "c1" |}; {| Container_ID := "c2" |} ]
  = [ Run [Send entry_sample] (Done tt); Run [Send entry_sample] (Done tt) ].
Proof. reflexivity. Qed.

Lemma List_two_healthy :
  @List_returns dc_two_healthy range_forward [entry_sample; entry_sample] None.
Proof. by apply List_in_turn_returns. Qed.

Lemma List_returns_entries_witness :
  [entry_sample; entry_sample]
  ≡ₚ concat (sent <$> workers dc_two_healthy (H := range_forward)
               [ {| Container_ID := "c1" |}; {| Container_ID := "c2" |} ])
  ∧ (2 ≤ length [entry_sample; entry_sample] ≤ 3 * 2)%nat.
Proof.
  exact (List_returns_entries dc_two_healthy (H := range_forward)
           [ {| Container_ID := "c1" |}; {| Container_ID := "c2" |} ]
           [entry_sample; entry_sample] eq_refl List_two_healthy).
Defined.

Lemma worker_succeeds_two_healthy id :
  worker_succeeds dc_two_healthy (H := range_forward) id.
Proof.
  split; [done|].
  exists {| ContainerID := "c1"; ContainerName := "/web";
            CPUPercentage := Float64.of_Z 40; Memory := Float64.of_Z 4096;
            MemoryPercentage := Float64.div (Float64.of_Z 100) (Float64.of_Z 256);
            MemoryLimit := Float64.of_Z 1048576;
            NetworkRx := Float64.of_Z 1540; NetworkTx := Float64.of_Z 740;
            BlockRead := Float64.of_Z 10; BlockWrite := Float64.of_Z 20;
            EntryLabels := None |}, entry_sample.
  split; reflexivity.
Qed.

Lemma List_all_succeed_witness :
  (∃ stats, @List_returns dc_two_healthy range_forward stats None)
  ∧ ¬ @List_crashes dc_two_healthy range_forward
  ∧ ∀ stats err, @List_returns dc_two_healthy range_forward stats err →
      err = None ∧ length stats = 2%nat.
Proof.
  apply (List_all_succeed dc_two_healthy (H := range_forward)
           [ {| Container_ID := "c1" |}; {| Container_ID := "c2" |} ] eq_refl).
  repeat constructor; apply worker_succeeds_two_healthy.
Defined.

Lemma List_nil_body_never_returns_witness :
  sent (@worker dc_fetch_fails range_forward "c2") = [emptyEntry]
  ∧ @List_crashes dc_fetch_fails range_forward
  ∧ ∀ stats err, ¬ @List_returns dc_fetch_fails range_forward stats err.
Proof.
  apply (List_nil_body_never_returns dc_fetch_fails (H := range_forward)
           [ {| Container_ID := "c1" |}; {| Container_ID := "c2" |} ]
           {| Container_ID := "c2" |} eq_refl); [|reflexivity].
  apply list_elem_of_further, list_elem_of_here.
Defined.

Lemma handler_after_List_witness :
  handler [] (Some "cannot connect to the Docker daemon"%string)
  = [ (500, {| Response_Stats := None;
               Response_Msg := "cannot connect to the Docker daemon" |});
      (200, {| Response_Stats := Some []; Response_Msg := "" |}) ].
Proof.
  refine (proj2 (handler_after_List dc_listing_fails (H := range_forward) []
                   (Some "cannot connect to the Docker daemon"%string) _)).
  by eapply List_listing_failed.
Defined.

(** * The watcher *)

Section Watcher.
Context (dc : Docker).

Lemma Watch_loop_reconnects errs :
  NewClientWithOpts dc = None →
  (Watch_loop dc errs).2 = true
  ∧ omap warned (Watch_loop dc errs).1 = errs
  ∧ length (filter is_WatchEvents (Watch_loop dc errs).1) = length errs
  ∧ length (filter is_WatchSetClient (Watch_loop dc errs).1)
    = length (filter closed_unexpectedly errs)
  ∧ Forall (λ ev, ∀ ms, ev = WatchSleep ms → ms = 250) (Watch_loop dc errs).1.
Proof.
  intros Hnew. induction errs as [|err errs (IHr & IHw & IHe & IHc & IHs)].
  - by repeat split.
  - cbn [Watch_loop]. unfold Watch_iteration, newDockerClient. rewrite Hnew.
    destruct (Watch_loop dc errs) as [evs running]. simpl in *. subst running.
    destruct err; simpl;
      rewrite ?filter_cons_True, ?filter_cons_False by (by intros []); simpl;
      rewrite ?IHe, ?IHc; repeat split; try done;
      try (by f_equal);
      repeat (constructor; [intros ? ?; by simplify_eq|]); done.
Qed.

(** While clients can be built, the watcher never stops: after any number
    of stream errors it has logged each of them, in order, has subscribed
    once at the start and once more after each error, and has rebuilt the
    client exactly once per [io.EOF] or [io.ErrUnexpectedEOF], always
    sleeping 250 ms. *)
Theorem Watch_reconnects errs :
  NewClientWithOpts dc = None →
  (Watch dc errs).2 = true
  ∧ omap warned (Watch dc errs).1 = errs
  ∧ length (filter is_WatchEvents (Watch dc errs).1) = S (length errs)
  ∧ length (filter is_WatchSetClient (Watch dc errs).1)
    = length (filter closed_unexpectedly errs)
  ∧ Forall (λ ev, ∀ ms, ev = WatchSleep ms → ms = 250) (Watch dc errs).1.
Proof.
  intros Hnew.
  destruct (Watch_loop_reconnects errs Hnew) as (Hr & Hw & He & Hc & Hs).
  unfold Watch. destruct (Watch_loop dc errs) as [evs running]. simpl in *.
  rewrite He. repeat split; try done. by repeat (constructor; [done|]).
Qed.

Lemma Watch_loop_exits errs e :
  NewClientWithOpts dc = Some e →
  (Watch_loop dc errs).2 = forallb (λ err, negb (closed_unexpectedly err)) errs
  ∧ omap warned (Watch_loop dc errs).1 = until_closed errs
  ∧ filter is_WatchSetClient (Watch_loop dc errs).1 = [].
Proof.
  intros Hnew. induction errs as [|err errs (IHr & IHw & IHc)].
  - by repeat split.
  - cbn [Watch_loop]. unfold Watch_iteration, newDockerClient. rewrite Hnew.
    destruct (Watch_loop dc errs) as [evs running]. simpl in *.
    destruct err; simpl; try done.
    repeat split; [done|by f_equal|done].
Qed.

(** When no client can be built, the watcher ends the process at the first
    [io.EOF] or [io.ErrUnexpectedEOF]: it logs the errors up to that one and
    nothing after it, never replaces the client, and keeps running only as
    long as no such error arrives. *)
Theorem Watch_exits errs e :
  NewClientWithOpts dc = Some e →
  (Watch dc errs).2 = forallb (λ err, negb (closed_unexpectedly err)) errs
  ∧ omap warned (Watch dc errs).1 = until_closed errs
  ∧ filter is_WatchSetClient (Watch dc errs).1 = [].
Proof.
  intros Hnew. destruct (Watch_loop_exits errs e Hnew) as (Hr & Hw & Hc).
  unfold Watch. by destruct (Watch_loop dc errs) as [evs running].
Qed.

End Watcher.

Lemma Watch_reconnects_witness :
  Watch dc_idle [other_error "timeout"; io_EOF]
  = ([ WatchInfo; WatchEvents;
       WatchWarn (other_error "timeout"); WatchEvents;
       WatchWarn io_EOF; WatchSetClient; WatchSleep 250; WatchEvents ], true)
  ∧ length (filter is_WatchSetClient
              (Watch dc_idle [other_error "timeout"; io_EOF]).1) = 1%nat.
Proof.
  split; [reflexivity|].
  exact (proj1 (proj2 (proj2 (proj2
           (Watch_reconnects dc_idle [other_error "timeout"; io_EOF] eq_refl))))).
Defined.

Lemma Watch_exits_witness :
  (Watch dc_no_client [other_error "timeout"; io_ErrUnexpectedEOF; io_EOF]).2
  = false
  ∧ omap warned
      (Watch dc_no_client [other_error "timeout"; io_ErrUnexpectedEOF; io_EOF]).1
    = [other_error "timeout"; io_ErrUnexpectedEOF].
Proof.
  destruct (Watch_exits dc_no_client
              [other_error "timeout"; io_ErrUnexpectedEOF; io_EOF]
              "invalid options" eq_refl) as (Hr & Hw & _).
  split; [exact Hr|exact Hw].
Defined.

(** * More binary64 arithmetic: signs, exact differences, commutativity *)

Module Float64Signs.
Import Float64 Float64Facts.

(** Rounding a non-negative mantissa keeps the sign it is given. *)
Lemma binary_round_aux_sign s m e l :
  0 ≤ m →
  match binary_round_aux prec emax s m e l with
  | S754_zero s' | S754_finite s' _ _ | S754_infinity s' => s' = s
  | S754_nan => False
  end.
Proof.
  intros Hm. unfold binary_round_aux.
  destruct (shr_fexp_spec m e l Hm) as [Hm1 _].
  destruct (shr_fexp prec emax m e l) as [mrs1 e1]. simpl in Hm1.
  pose proof (round_nearest_even_bounds (shr_m mrs1) (loc_of_shr_record mrs1)) as Hr.
  assert (0 ≤ shr_m mrs1) as Hm1' by (rewrite Hm1; apply Z.div_pos; lia).
  set (r := round_nearest_even _ _) in *.
  destruct (shr_fexp_spec r e1 loc_Exact ltac:(lia)) as [Hm2 _].
  destruct (shr_fexp prec emax r e1 loc_Exact) as [mrs2 e2]. simpl in Hm2.
  assert (0 ≤ shr_m mrs2) as Hm2' by (rewrite Hm2; apply Z.div_pos; lia).
  destruct (shr_m mrs2); [done| |lia]. by destruct (_ <=? _)%Z.
Qed.

Lemma binary_round_aux_nonneg m e l :
  0 ≤ m → is_nonneg_number (binary_round_aux prec emax false m e l) = true.
Proof.
  intros Hm. pose proof (binary_round_aux_sign false m e l Hm) as Hs.
  by destruct (binary_round_aux prec emax false m e l) as [[]|[]| |[] ? ?].
Qed.

(** Rounding cannot overflow when the mantissa and the exponent are small. *)
Lemma binary_round_aux_finite s m e l B :
  0 ≤ B ≤ 400 → 0 ≤ m < 2 ^ B → e + 2 * B ≤ 971 →
  is_finite (binary_round_aux prec emax s m e l) = true.
Proof.
  intros HB [Hm0 Hm] He. unfold binary_round_aux.
  destruct (shr_fexp_spec m e l Hm0) as [Hm1 He1].
  destruct (shr_fexp prec emax m e l) as [mrs1 e1]. simpl in Hm1, He1.
  pose proof (Zdigits2_bound m B ltac:(lia) ltac:(lia)) as Hdm.
  assert (0 ≤ Zdigits2 m) as Hdm0 by (destruct m; simpl; lia).
  unfold fexp, emin, prec, emax in Hm1, He1. zfold.
  set (n1 := Z.max 0 _) in *.
  assert (0 < 2 ^ n1) as Hp1 by (apply Z.pow_pos_nonneg; lia).
  assert (0 ≤ shr_m mrs1 ≤ m) as Hb1.
  { rewrite Hm1. split; [apply Z.div_pos; lia|].
    apply Z.div_le_upper_bound; [lia|]. nia. }
  pose proof (round_nearest_even_bounds (shr_m mrs1) (loc_of_shr_record mrs1)) as Hr.
  set (r := round_nearest_even _ _) in *.
  destruct (shr_fexp_spec r e1 loc_Exact ltac:(lia)) as [Hm2 He2].
  destruct (shr_fexp prec emax r e1 loc_Exact) as [mrs2 e2].
  simpl in Hm2, He2. unfold fexp, emin, prec, emax in Hm2, He2. zfold.
  assert (r < 2 ^ (B + 1)) as Hrb by (rewrite Z.pow_add_r by lia; lia).
  pose proof (Zdigits2_bound r (B + 1) ltac:(lia) ltac:(lia)) as Hdr.
  assert (0 ≤ Zdigits2 r) as Hdr0 by (destruct r; simpl; lia).
  set (n2 := Z.max 0 _) in *.
  assert (0 ≤ shr_m mrs2) as Hb2
    by (rewrite Hm2; apply Z.div_pos; [lia|apply Z.pow_pos_nonneg; lia]).
  destruct (shr_m mrs2) as [|m2|m2]; [done| |lia].
  unfold prec, emax. zfold.
  destruct (Z.leb_spec e2 (1024 - 53)); [done|]. subst n1 n2. lia.
Qed.

(** The shape of a converted [uint64]: [+0] or a positive finite value. *)
Lemma of_Z_uint64_nonneg z :
  0 ≤ z < 2 ^ 64 →
  is_finite (of_Z z) = true ∧ is_nonneg_number (of_Z z) = true.
Proof.
  intros Hz. by destruct (of_Z_uint64 z Hz) as [[_ ->]|[_ (m & e & ->)]].
Qed.

Lemma add_nonneg x y :
  is_nonneg_number x = true → is_nonneg_number y = true →
  is_nonneg_number (add x y) = true.
Proof.
  destruct x as [[]|[]| |[] mx ex], y as [[]|[]| |[] my ey]; try done.
  intros _ _. unfold add, SFadd. cbv zeta.
  destruct (shl_align mx ex _) as [mx' ex'], (shl_align my ey _) as [my' ey'].
  simpl. unfold binary_round. destruct (shl_align _ _ _).
  by apply binary_round_aux_nonneg.
Qed.

Lemma add_zero_l z : 0 ≤ z < 2 ^ 64 → add zero (of_Z z) = of_Z z.
Proof.
  intros Hz. by destruct (of_Z_uint64 z Hz) as [[_ ->]|[_ (m & e & ->)]].
Qed.

Lemma add_comm_uint64 a b :
  0 ≤ a < 2 ^ 64 → 0 ≤ b < 2 ^ 64 →
  add (of_Z a) (of_Z b) = add (of_Z b) (of_Z a).
Proof.
  intros Ha Hb.
  destruct (of_Z_uint64 a Ha) as [[_ ->]|[_ (ma & ea & ->)]],
    (of_Z_uint64 b Hb) as [[_ ->]|[_ (mb & eb & ->)]]; try done.
  unfold add, SFadd. cbv zeta. zfold.
  rewrite (Z.min_comm eb ea). f_equal. apply Z.add_comm.
Qed.

(** A quotient or a product of non-negative finite values is not negative
    and not a NaN. *)
Lemma div_nonneg x my ey :
  is_finite x = true → is_nonneg_number x = true →
  is_nonneg_number (div x (S754_finite false my ey)) = true.
Proof.
  destruct x as [[]|[]| |[] mx ex]; try done. intros _ _.
  unfold div, SFdiv, SFdiv_core_binary.
  set (s := (_ - _ - _)%Z).
  set (m' := match s with Zpos _ => _ | Z0 => _ | Zneg _ => _ end).
  assert (0 ≤ m') as Hm'.
  { subst m'. destruct s; [lia| |lia]. by apply Z.shiftl_nonneg. }
  pose proof (Z_div_mod m' (Zpos my) ltac:(lia)) as Hdiv.
  change (IntDef.Z.div_eucl) with Z.div_eucl.
  destruct (Z.div_eucl m' (Zpos my)) as [q r].
  apply binary_round_aux_nonneg. nia.
Qed.

Lemma mul_nonneg x y :
  is_finite x = true → is_nonneg_number x = true →
  is_finite y = true → is_nonneg_number y = true →
  is_nonneg_number (mul x y) = true.
Proof.
  destruct x as [[]|[]| |[] mx ex], y as [[]|[]| |[] my ey]; try done.
  intros _ _ _ _. by apply binary_round_aux_nonneg.
Qed.

Lemma mul_nonneg_positive x my ey :
  is_nonneg_number x = true →
  is_nonneg_number (mul x (S754_finite false my ey)) = true.
Proof.
  destruct x as [[]|[]| |[] mx ex]; try done.
  intros _. by apply binary_round_aux_nonneg.
Qed.

Lemma of_Z_100 : ∃ m e, of_Z 100 = S754_finite false m e.
Proof. by eexists _, _. Qed.

(** The conversion of an integer of magnitude below [2^53], of either
    sign. *)
Lemma of_Z_exact_neg p :
  Zpos p < 2 ^ 53 →
  of_Z (Zneg p) = S754_finite true (canonical_mant p) (Zpos (digits2_pos p) - 53).
Proof.
  intros Hp. unfold of_Z, binary_normalize.
  apply (binary_round_exact true p 0 p); [lia|lia|done].
Qed.

(** Differences of counters below [2^53] are exact. *)
Lemma sub_exact a b :
  0 ≤ a < 2 ^ 53 → 0 ≤ b < 2 ^ 53 → sub (of_Z a) (of_Z b) = of_Z (a - b).
Proof.
  intros [Ha0 Ha] [Hb0 Hb].
  destruct a as [|a|a]; [| |lia].
  { destruct b as [|b|b]; [done| |lia].
    rewrite of_Z_small by lia. change (0 - Zpos b) with (Zneg b).
    by rewrite of_Z_exact_neg by lia. }
  destruct b as [|b|b]; [| |lia].
  { rewrite Z.sub_0_r, !of_Z_small by lia. done. }
  pose proof (digits2_pos_bound a 53 ltac:(lia) Ha).
  pose proof (digits2_pos_bound b 53 ltac:(lia) Hb).
  pose proof (canonical_mant_Z a Ha) as Hca.
  pose proof (canonical_mant_Z b Hb) as Hcb.
  rewrite (of_Z_small a), (of_Z_small b) by done.
  unfold sub, SFsub. cbv zeta. zfold.
  pose proof (digits2_pos_range a). pose proof (digits2_pos_range b).
  set (da := Zpos (digits2_pos a)) in *. set (db := Zpos (digits2_pos b)) in *.
  set (ez := Z.min (da - 53) (db - 53)).
  unfold cond_Zopp.
  pose proof (shl_align_Z (canonical_mant a) (da - 53) ez ltac:(lia)) as Hsa.
  pose proof (shl_align_Z (canonical_mant b) (db - 53) ez ltac:(lia)) as Hsb.
  destruct (shl_align (canonical_mant a) (da - 53) ez) as [ma ea].
  destruct (shl_align (canonical_mant b) (db - 53) ez) as [mb eb].
  simpl in Hsa, Hsb. simpl fst.
  assert (Hval : Zpos ma - Zpos mb = (Zpos a - Zpos b) * 2 ^ (- ez)).
  { rewrite Hsa, Hsb, Hca, Hcb, <- !Z.mul_assoc, <- !Z.pow_add_r by lia.
    rewrite Z.mul_sub_distr_r. f_equal; f_equal; f_equal; lia. }
  assert (0 < 2 ^ (- ez)) as Hpow by (apply Z.pow_pos_nonneg; lia).
  destruct (Zpos ma - Zpos mb) as [|q|q] eqn:Hq.
  - replace (Zpos a - Zpos b) with 0 by nia. done.
  - assert (0 < Zpos a - Zpos b) as Hpos by nia.
    destruct (Zpos a - Zpos b) as [|d|d] eqn:Hd; try lia.
    rewrite of_Z_small by lia. unfold binary_normalize.
    replace ez with (- (- ez)) by lia.
    apply binary_round_exact; [lia|done|lia].
  - assert (Zpos a - Zpos b < 0) as Hneg by nia.
    destruct (Zpos a - Zpos b) as [|d|d] eqn:Hd; try lia.
    rewrite of_Z_exact_neg by lia. unfold binary_normalize.
    replace ez with (- (- ez)) by lia.
    apply binary_round_exact; [lia| |lia]. lia.
Qed.

(** The sign tests on an exact integer. *)
Lemma ltb_zero_of_Z d :
  - 2 ^ 53 < d < 2 ^ 53 → ltb zero (of_Z d) = (0 <? d).
Proof.
  intros Hd. destruct d as [|p|p].
  - done.
  - by rewrite of_Z_small by lia.
  - by rewrite of_Z_exact_neg by lia.
Qed.

(** The quotient of two positive exact integers is finite. *)
Lemma div_exact_finite a b :
  Zpos a < 2 ^ 53 → Zpos b < 2 ^ 53 →
  is_finite (div (of_Z (Zpos a)) (of_Z (Zpos b))) = true
  ∧ is_nonneg_number (div (of_Z (Zpos a)) (of_Z (Zpos b))) = true.
Proof.
  intros Ha Hb. split; [|rewrite (of_Z_small b) by done; apply div_nonneg;
                         by rewrite of_Z_small].
  pose proof (digits2_pos_bound a 53 ltac:(lia) Ha).
  pose proof (digits2_pos_bound b 53 ltac:(lia) Hb).
  pose proof (digits2_pos_range a). pose proof (digits2_pos_range b).
  pose proof (canonical_mant_Z a Ha) as Hca.
  pose proof (canonical_mant_Z b Hb) as Hcb.
  assert (Hda : Zpos (digits2_pos (canonical_mant a)) = 53).
  { rewrite (digits2_pos_shift (53 - Zpos (digits2_pos a)) ltac:(lia) _ a Hca). lia. }
  assert (Hdb : Zpos (digits2_pos (canonical_mant b)) = 53).
  { rewrite (digits2_pos_shift (53 - Zpos (digits2_pos b)) ltac:(lia) _ b Hcb). lia. }
  pose proof (digits2_pos_upper (canonical_mant a)) as Hua. rewrite Hda in Hua.
  rewrite !of_Z_small by done.
  unfold div, SFdiv, SFdiv_core_binary. simpl Zdigits2. rewrite Hda, Hdb.
  unfold fexp, emin, prec, emax. zfold.
  set (ea := Zpos (digits2_pos a) - 53) in *.
  set (eb := Zpos (digits2_pos b) - 53) in *.
  replace (Z.min (Z.max (53 + ea - (53 + eb) - 53) (3 - 1024 - 53)) (ea - eb))
    with (ea - eb - 53) by lia.
  replace (ea - eb - (ea - eb - 53)) with 53 by lia.
  assert (Hshift : Z.shiftl (Zpos (canonical_mant a)) 53
                   = Zpos (canonical_mant a) * 2 ^ 53)
    by (by rewrite Z.shiftl_mul_pow2).
  rewrite Hshift.
  pose proof (Z_div_mod (Zpos (canonical_mant a) * 2 ^ 53)
                (Zpos (canonical_mant b)) ltac:(lia)) as Hdiv.
  change (IntDef.Z.div_eucl) with Z.div_eucl.
  destruct (Z.div_eucl _ _) as [q r].
  apply (binary_round_aux_finite _ _ _ _ 106); [lia| |lia].
  replace (2 ^ 106) with (2 ^ 53 * 2 ^ 53) by (by rewrite <- Z.pow_add_r).
  nia.
Qed.

End Float64Signs.

(** * Further properties of the derivations *)

Section DerivationRanges.
Import Float64 Float64Facts Float64Signs.

Lemma exact_counter_range z : exact_counter z = true ↔ 0 ≤ z < 2 ^ 53.
Proof. unfold exact_counter. rewrite andb_true_iff, Z.leb_le, Z.ltb_lt. done. Qed.

Lemma cpu_counters_exact_range prevCPU prevSystem v :
  cpu_counters_exact prevCPU prevSystem v = true →
  0 ≤ prevCPU < 2 ^ 53 ∧ 0 ≤ prevSystem < 2 ^ 53
  ∧ 0 ≤ TotalUsage (CPUUsage (CPUStats v)) < 2 ^ 53
  ∧ 0 ≤ SystemUsage (CPUStats v) < 2 ^ 53
  ∧ 0 ≤ OnlineCPUs (CPUStats v) < 2 ^ 32.
Proof.
  unfold cpu_counters_exact.
  rewrite !andb_true_iff, !exact_counter_range, is_uint32_range. tauto.
Qed.

(** On counters below [2^53] the two deltas are the integer differences. *)
Lemma calcCPUPercent_exact prevCPU prevSystem v :
  cpu_counters_exact prevCPU prevSystem v = true →
  calcCPUPercent prevCPU prevSystem v
  = if (0 <? SystemUsage (CPUStats v) - prevSystem)
       && (0 <? TotalUsage (CPUUsage (CPUStats v)) - prevCPU)
    then mul (mul (div (of_Z (TotalUsage (CPUUsage (CPUStats v)) - prevCPU))
                       (of_Z (SystemUsage (CPUStats v) - prevSystem)))
                  (if OnlineCPUs (CPUStats v) =? 0
                   then float64_of_int (length (PercpuUsage (CPUUsage (CPUStats v))))
                   else float64_of_uint64 (OnlineCPUs (CPUStats v))))
             (of_Z 100)
    else zero.
Proof.
  intros (HpC & HpS & HC & HS & HO)%cpu_counters_exact_range.
  unfold calcCPUPercent, float64_of_uint64.
  rewrite !sub_exact, !ltb_zero_of_Z, of_Z_uint64_eqb_zero by lia. done.
Qed.

Lemma calcCPUPercent_nonneg prevCPU prevSystem v :
  cpu_counters_exact prevCPU prevSystem v = true →
  is_uint64 (Z.of_nat (length (PercpuUsage (CPUUsage (CPUStats v))))) = true →
  is_nonneg_number (calcCPUPercent prevCPU prevSystem v) = true.
Proof.
  intros Hexact Hlen%is_uint64_range. rewrite calcCPUPercent_exact by done.
  apply cpu_counters_exact_range in Hexact as (HpC & HpS & HC & HS & HO).
  destruct (Z.ltb_spec 0 (SystemUsage (CPUStats v) - prevSystem)) as [Hs|]; [|done].
  destruct (Z.ltb_spec 0 (TotalUsage (CPUUsage (CPUStats v)) - prevCPU)) as [Hc|];
    [|done].
  cbn [andb]. destruct of_Z_100 as (m & e & ->). apply mul_nonneg_positive.
  destruct (SystemUsage (CPUStats v) - prevSystem) as [|ds|ds] eqn:Hds; try lia.
  destruct (TotalUsage (CPUUsage (CPUStats v)) - prevCPU) as [|dc|dc] eqn:Hdc;
    try lia.
  destruct (div_exact_finite dc ds ltac:(lia) ltac:(lia)) as [Hfin Hnn].
  apply mul_nonneg; [done..| |];
    destruct (OnlineCPUs (CPUStats v) =? 0);
    unfold float64_of_int, float64_of_uint64;
    apply of_Z_uint64_nonneg; lia.
Qed.

Lemma calcMemUsageNoCache_range mem :
  is_finite (calcMemUsageNoCache mem) = true
  ∧ is_nonneg_number (calcMemUsageNoCache mem) = true.
Proof.
  unfold calcMemUsageNoCache, float64_of_uint64, uint64_sub, uint64_modulus.
  apply of_Z_uint64_nonneg. apply Z.mod_pos_bound. lia.
Qed.

Lemma calcMemPercentNoCache_nonneg mem :
  is_uint64 (Limit mem) = true →
  is_nonneg_number
    (calcMemPercentNoCache (float64_of_uint64 (Limit mem))
                           (calcMemUsageNoCache mem)) = true.
Proof.
  intros Hl%is_uint64_range. unfold calcMemPercentNoCache, float64_of_uint64.
  rewrite of_Z_uint64_eqb_zero by done.
  destruct (Z.eqb_spec (Limit mem) 0) as [|Hnz]; [done|]. cbn [negb].
  destruct of_Z_100 as (m & e & ->). apply mul_nonneg_positive.
  destruct (of_Z_uint64 (Limit mem) Hl) as [[? _]|[_ (ml & el & ->)]]; [done|].
  apply div_nonneg; apply calcMemUsageNoCache_range.
Qed.

Lemma calcBlockIO_nonneg blkio :
  is_nonneg_number (calcBlockIO blkio).1 = true
  ∧ is_nonneg_number (calcBlockIO blkio).2 = true.
Proof.
  rewrite calcBlockIO_totals. simpl. unfold float64_of_uint64.
  split; apply of_Z_uint64_nonneg; apply Z.mod_pos_bound; lia.
Qed.

Lemma calcNetwork_loop_nonneg (l : list (string * network_stats)) : ∀ acc,
  Forall (λ kv, is_uint64 (RxBytes kv.2) = true ∧ is_uint64 (TxBytes kv.2) = true) l →
  is_nonneg_number acc.1 = true → is_nonneg_number acc.2 = true →
  is_nonneg_number (foldl calcNetwork_step acc l).1 = true
  ∧ is_nonneg_number (foldl calcNetwork_step acc l).2 = true.
Proof.
  induction l as [|[name i] l IH]; intros [rx tx] Hl Hrx Htx; [done|].
  apply Forall_cons in Hl as [[Hr%is_uint64_range Ht%is_uint64_range] Hl].
  cbn [foldl]. apply IH; [done|..]; simpl in *; unfold float64_of_uint64;
    apply add_nonneg; try done; by apply of_Z_uint64_nonneg.
Qed.

Lemma calcNetwork_nonneg `{MapRange} (network : gmap string network_stats) :
  map_Forall (λ _ i, is_uint64 (RxBytes i) = true ∧ is_uint64 (TxBytes i) = true)
             network →
  is_nonneg_number (calcNetwork network).1 = true
  ∧ is_nonneg_number (calcNetwork network).2 = true.
Proof.
  intros Hwf. unfold calcNetwork. apply calcNetwork_loop_nonneg; [|done..].
  apply map_Forall_to_list in Hwf. rewrite <- (range_perm _ network) in Hwf.
  eapply Forall_impl; [exact Hwf|]. by intros [??].
Qed.

(** C2 (amended): when the four CPU counters are below [2^53], the CPU
    percentage is 0 whenever [cpuDelta <= 0] or [systemDelta <= 0], and
    otherwise is [(cpuDelta / systemDelta) * onlineCPUs * 100], where the
    deltas are the differences of the counters and [onlineCPUs] is the
    reported count or, when that is zero, the number of per-CPU entries. *)
Theorem calcCPUPercent_spec (prevCPU prevSystem : Z) (v : stats_json) :
  cpu_counters_exact prevCPU prevSystem v = true →
  let cpuDelta := TotalUsage (CPUUsage (CPUStats v)) - prevCPU in
  let systemDelta := SystemUsage (CPUStats v) - prevSystem in
  let onlineCPUs :=
    if OnlineCPUs (CPUStats v) =? 0
    then float64_of_int (length (PercpuUsage (CPUUsage (CPUStats v))))
    else float64_of_uint64 (OnlineCPUs (CPUStats v)) in
  (cpuDelta ≤ 0 ∨ systemDelta ≤ 0 →
   calcCPUPercent prevCPU prevSystem v = zero) ∧
  (0 < cpuDelta → 0 < systemDelta →
   calcCPUPercent prevCPU prevSystem v
   = mul (mul (div (float64_of_uint64 cpuDelta) (float64_of_uint64 systemDelta))
              onlineCPUs)
         (of_Z 100)).
Proof.
  intros Hexact cpuDelta systemDelta onlineCPUs.
  rewrite calcCPUPercent_exact by done. fold cpuDelta systemDelta onlineCPUs.
  split.
  - intros [Hc|Hs].
    + destruct (Z.ltb_spec 0 cpuDelta); [lia|by rewrite andb_false_r].
    + by destruct (Z.ltb_spec 0 systemDelta); [lia|].
  - intros Hc Hs.
    destruct (Z.ltb_spec 0 systemDelta); [|lia].
    by destruct (Z.ltb_spec 0 cpuDelta); [|lia].
Qed.

(** On counters below [2^53], the CPU percentage depends on the integer
    differences of the counters only: it is [+0] unless both the container's
    and the system's usage grew, and otherwise the rounded quotient of the
    two differences times the CPU count times 100.  With fewer than [2^64]
    per-CPU entries it is never a NaN and never negative. *)
Theorem calcCPUPercent_counters prevCPU prevSystem v :
  cpu_counters_exact prevCPU prevSystem v = true →
  is_uint64 (Z.of_nat (length (PercpuUsage (CPUUsage (CPUStats v))))) = true →
  let cpuDelta := TotalUsage (CPUUsage (CPUStats v)) - prevCPU in
  let systemDelta := SystemUsage (CPUStats v) - prevSystem in
  let onlineCPUs :=
    if OnlineCPUs (CPUStats v) =? 0
    then float64_of_int (length (PercpuUsage (CPUUsage (CPUStats v))))
    else float64_of_uint64 (OnlineCPUs (CPUStats v)) in
  calcCPUPercent prevCPU prevSystem v
  = (if (0 <? systemDelta) && (0 <? cpuDelta)
     then mul (mul (div (of_Z cpuDelta) (of_Z systemDelta)) onlineCPUs) (of_Z 100)
     else zero)
  ∧ is_nonneg_number (calcCPUPercent prevCPU prevSystem v) = true.
Proof.
  intros Hexact Hlen. split.
  - by apply calcCPUPercent_exact.
  - by apply calcCPUPercent_nonneg.
Qed.

(** The cache-excluded memory usage is always a finite float that is not
    negative, also when the cache value exceeds the usage; and the memory
    percentage derived from it over a [uint64] limit is never a NaN and never
    negative. *)
Theorem memory_derivations_in_range mem :
  is_uint64 (Limit mem) = true →
  is_finite (calcMemUsageNoCache mem) = true
  ∧ is_nonneg_number (calcMemUsageNoCache mem) = true
  ∧ is_nonneg_number
      (calcMemPercentNoCache (float64_of_uint64 (Limit mem))
                             (calcMemUsageNoCache mem)) = true.
Proof.
  intros Hl. split; [apply calcMemUsageNoCache_range|].
  split; [apply calcMemUsageNoCache_range|by apply calcMemPercentNoCache_nonneg].
Qed.

End DerivationRanges.

Lemma calcCPUPercent_spec_witness :
  calcCPUPercent 200 1000 stats_sample
  = Float64.mul (Float64.mul (Float64.div (float64_of_uint64 200)
                                          (float64_of_uint64 1000))
                             (float64_of_int 2))
                (Float64.of_Z 100)
  ∧ calcCPUPercent 400 1000 stats_sample = Float64.zero.
Proof.
  split.
  - apply (proj2 (calcCPUPercent_spec 200 1000 stats_sample eq_refl));
      reflexivity.
  - apply (proj1 (calcCPUPercent_spec 400 1000 stats_sample eq_refl)).
    left. by vm_compute.
Defined.

Lemma calcCPUPercent_counters_witness :
  calcCPUPercent 200 1000 stats_sample = Float64.of_Z 40
  ∧ is_nonneg_number (calcCPUPercent 200 1000 stats_sample) = true.
Proof.
  exact (calcCPUPercent_counters 200 1000 stats_sample eq_refl eq_refl).
Defined.

Lemma memory_derivations_in_range_witness :
  Float64.is_finite (calcMemUsageNoCache mem_cache_above_usage) = true
  ∧ is_nonneg_number (calcMemUsageNoCache mem_cache_above_usage) = true
  ∧ is_nonneg_number
      (calcMemPercentNoCache (float64_of_uint64 (Limit mem_cache_above_usage))
                             (calcMemUsageNoCache mem_cache_above_usage)) = true.
Proof. exact (memory_derivations_in_range mem_cache_above_usage eq_refl). Defined.

Section SnapshotFields.
Import Float64 Float64Facts Float64Signs.
Context (dc : Docker) `{MapRange}.

(** On a runtime that is not Windows the entry is wired as follows: the
    identity comes from the snapshot, the CPU percentage is derived against
    the counters of [PreCPUStats], the memory percentage from the
    cache-excluded usage over the limit, and the block and network totals
    from their lists. *)
Theorem getStats_wiring response body v :
  OSType response ≠ "windows" →
  Body response = Some body →
  read_error body = None →
  json_Unmarshal dc (content body) = (Some v, None) →
  ∃ s, getStats dc response = Run [] (Done (s, None))
    ∧ ContainerID s = ID v ∧ ContainerName s = Name v
    ∧ CPUPercentage s
      = calcCPUPercent (TotalUsage (CPUUsage (PreCPUStats v)))
                       (SystemUsage (PreCPUStats v)) v
    ∧ Memory s = calcMemUsageNoCache (MemoryStats v)
    ∧ MemoryLimit s = float64_of_uint64 (Limit (MemoryStats v))
    ∧ MemoryPercentage s = calcMemPercentNoCache (MemoryLimit s) (Memory s)
    ∧ (BlockRead s, BlockWrite s) = calcBlockIO (BlkioStats v)
    ∧ (NetworkRx s, NetworkTx s) = calcNetwork (Networks v)
    ∧ EntryLabels s = None.
Proof.
  intros Hos Hbody Hread Hjson.
  rewrite (getStats_derived dc response body v Hos Hbody Hread Hjson).
  eexists. split; [done|]. simpl.
  destruct (calcBlockIO (BlkioStats v)), (calcNetwork (Networks v)).
  by repeat split.
Qed.

(** Whatever the runtime, the float fields of the entry derived from a
    snapshot within range are never NaN and never negative. *)
Theorem getStats_fields_nonneg response body v :
  Body response = Some body →
  read_error body = None →
  json_Unmarshal dc (content body) = (Some v, None) →
  snapshot_in_range v →
  ∃ s, outcome (getStats dc response) = Done (s, None)
    ∧ Forall (λ x, is_nonneg_number x = true) (float_fields s).
Proof.
  intros Hbody Hread Hjson (Hcpu & Hlen & Hlim & Hnet).
  destruct (calcNetwork_nonneg (Networks v) Hnet) as [Hrx Htx].
  destruct (decide (OSType response = "windows")) as [Hos|Hos].
  - unfold getStats. rewrite Hbody. go_step. rewrite Hread, Hjson. go_step.
    rewrite bool_decide_eq_false_2 by (by rewrite Hos; intros []).
    destruct (calcNetwork (Networks v)) as [rx tx]. eexists. split; [done|].
    unfold float_fields. simpl in *. by repeat constructor.
  - rewrite (getStats_derived dc response body v Hos Hbody Hread Hjson).
    eexists. split; [done|]. unfold float_fields. cbn [outcome CPUPercentage
      Memory MemoryPercentage MemoryLimit NetworkRx NetworkTx BlockRead
      BlockWrite].
    destruct (calcBlockIO_nonneg (BlkioStats v)) as [Hbr Hbw].
    pose proof (calcMemUsageNoCache_range (MemoryStats v)) as [_ Hmem].
    apply is_uint64_range in Hlim as Hlim'.
    repeat (constructor; [first
      [ by apply calcCPUPercent_nonneg
      | by apply calcMemPercentNoCache_nonneg
      | by apply of_Z_uint64_nonneg
      | done ]|]).
    constructor.
Qed.

End SnapshotFields.

Lemma snapshot_in_range_sample : snapshot_in_range stats_sample.
Proof.
  split; [reflexivity|]. split; [reflexivity|]. split; [reflexivity|].
  apply map_Forall_to_list.
  assert (map_to_list (Networks stats_sample)
          = [("eth0", {| RxBytes := 1500; TxBytes := 700 |});
             ("lo", {| RxBytes := 40; TxBytes := 40 |})]) as ->
    by (vm_compute; reflexivity).
  repeat constructor.
Qed.

Lemma getStats_wiring_witness :
  ∃ s, @getStats (dc_healthy "linux") range_forward
         (ContainerStats (dc_healthy "linux") "c1").1 = Run [] (Done (s, None))
    ∧ ContainerID s = "c1" ∧ ContainerName s = "/web"
    ∧ CPUPercentage s = calcCPUPercent 200 1000 stats_sample
    ∧ Memory s = calcMemUsageNoCache mem_sample
    ∧ MemoryLimit s = float64_of_uint64 1048576
    ∧ MemoryPercentage s = calcMemPercentNoCache (MemoryLimit s) (Memory s)
    ∧ (BlockRead s, BlockWrite s) = calcBlockIO (BlkioStats stats_sample)
    ∧ (NetworkRx s, NetworkTx s) = @calcNetwork range_forward networks_sample
    ∧ EntryLabels s = None.
Proof.
  apply (getStats_wiring (dc_healthy "linux") (H := range_forward)
           (ContainerStats (dc_healthy "linux") "c1").1
           {| content := "sample"; read_error := None |} stats_sample);
    [by intros [=]|reflexivity..].
Defined.

Lemma getStats_fields_nonneg_witness :
  ∃ s, outcome (@getStats (dc_healthy "windows") range_backward
                  (ContainerStats (dc_healthy "windows") "c1").1) = Done (s, None)
    ∧ Forall (λ x, is_nonneg_number x = true) (float_fields s).
Proof.
  exact (getStats_fields_nonneg (dc_healthy "windows") (H := range_backward)
           (ContainerStats (dc_healthy "windows") "c1").1
           {| content := "sample"; read_error := None |} stats_sample
           eq_refl eq_refl eq_refl snapshot_in_range_sample).
Defined.

(** * Order and classification in the block and network totals *)

Section Totals.
Import Float64 Float64Facts Float64Signs.

(** The block totals do not depend on the order of the entries. *)
Theorem calcBlockIO_order_independent (entries entries' : list blkio_stat_entry) :
  entries ≡ₚ entries' →
  calcBlockIO {| IoServiceBytesRecursive := entries |}
  = calcBlockIO {| IoServiceBytesRecursive := entries' |}.
Proof.
  intros Hperm. rewrite !calcBlockIO_totals. simpl.
  unfold read_total, write_total.
  by rewrite !(sum_with_perm Value _ _ (filter_Permutation _ _ _ Hperm)).
Qed.

(** No operation code is both a read and a write code. *)
Lemma read_write_exclusive op : is_read_op op && is_write_op op = false.
Proof.
  destruct op as [|c op]; [done|]. unfold is_read_op, is_write_op, starts_with.
  repeat case_bool_decide; try done. exfalso. intuition congruence.
Qed.

(** The exact totals with and without one entry, anywhere in the list. *)
Lemma read_total_middle before e after :
  read_total (before ++ e :: after)
  = read_total (before ++ after) + counted (is_read_op (Op e)) (Value e).
Proof.
  induction before as [|x before IH]; cbn [app].
  - rewrite read_total_cons. lia.
  - rewrite !read_total_cons, IH. lia.
Qed.

Lemma write_total_middle before e after :
  write_total (before ++ e :: after)
  = write_total (before ++ after) + counted (is_write_op (Op e)) (Value e).
Proof.
  induction before as [|x before IH]; cbn [app].
  - rewrite write_total_cons. lia.
  - rewrite !write_total_cons, IH. lia.
Qed.

Lemma calcBlockIO_entry before e after :
  calcBlockIO {| IoServiceBytesRecursive := before ++ e :: after |}
  = (float64_of_uint64
       ((read_total (before ++ after) + counted (is_read_op (Op e)) (Value e))
        mod 2 ^ 64),
     float64_of_uint64
       ((write_total (before ++ after) + counted (is_write_op (Op e)) (Value e))
        mod 2 ^ 64)).
Proof.
  rewrite calcBlockIO_totals. cbn [IoServiceBytesRecursive].
  by rewrite read_total_middle, write_total_middle.
Qed.

(** An entry counts for at most one total: adding it to a list, anywhere,
    leaves the read total or the write total as it was.  Which one it counts
    for depends on the first byte of its operation code alone; an entry whose
    code is empty or starts with a byte other than 'r', 'R', 'w' and 'W',
    such as "Sync" or "Total", can be removed without changing either
    total. *)
Theorem calcBlockIO_classification before e after :
  let with_e := calcBlockIO {| IoServiceBytesRecursive := before ++ e :: after |} in
  let without := calcBlockIO {| IoServiceBytesRecursive := before ++ after |} in
  (with_e.1 = without.1 ∨ with_e.2 = without.2)
  ∧ (∀ c rest rest', Op e = String c rest →
       calcBlockIO {| IoServiceBytesRecursive :=
         before ++ {| Op := String c rest'; Value := Value e |} :: after |}
       = with_e)
  ∧ (Op e = "" → with_e = without)
  ∧ (∀ c rest, Op e = String c rest →
       c ≠ "r"%char → c ≠ "R"%char → c ≠ "w"%char → c ≠ "W"%char →
       with_e = without).
Proof.
  intros with_e without. subst with_e without.
  rewrite calcBlockIO_entry, (calcBlockIO_totals {| IoServiceBytesRecursive := _ |}).
  cbn [IoServiceBytesRecursive fst snd].
  split; [|split; [|split]].
  - pose proof (read_write_exclusive (Op e)) as Hex.
    destruct (is_read_op (Op e)), (is_write_op (Op e)); try done;
      cbn [counted]; rewrite ?Z.add_0_r; auto.
  - intros c rest rest' Hop. rewrite calcBlockIO_entry. by rewrite Hop.
  - intros Hop. rewrite Hop. cbn [counted is_read_op is_write_op starts_with].
    by rewrite !Z.add_0_r.
  - intros c rest Hop Hr HR Hw HW. rewrite Hop.
    unfold is_read_op, is_write_op, starts_with.
    rewrite !bool_decide_eq_false_2 by (intros [|]; congruence).
    cbn [counted]. by rewrite !Z.add_0_r.
Qed.

Lemma range_empty `{MapRange} {V} : range (∅ : gmap string V) = [].
Proof.
  pose proof (range_perm V ∅) as Hperm. rewrite map_to_list_empty in Hperm.
  by apply Permutation_nil_r in Hperm.
Qed.

Lemma range_singleton `{MapRange} {V} name (v : V) :
  range ({[ name := v ]} : gmap string V) = [(name, v)].
Proof.
  pose proof (range_perm V {[ name := v ]}) as Hperm.
  rewrite map_to_list_singleton in Hperm.
  by apply Permutation_singleton_r in Hperm.
Qed.

Lemma range_pair `{MapRange} {V} n1 n2 (v1 v2 : V) :
  n1 ≠ n2 →
  range (<[n1 := v1]> {[ n2 := v2 ]} : gmap string V) = [(n1, v1); (n2, v2)]
  ∨ range (<[n1 := v1]> {[ n2 := v2 ]} : gmap string V) = [(n2, v2); (n1, v1)].
Proof.
  intros Hne. pose proof (range_perm V (<[n1 := v1]> {[ n2 := v2 ]})) as Hperm.
  rewrite map_to_list_insert, map_to_list_singleton in Hperm
    by (by rewrite lookup_singleton_ne).
  symmetry in Hperm. by apply Permutation_length_2_inv in Hperm.
Qed.

(** With no interface the network totals are [+0]; with one they are the
    conversions of its two counters, whatever their size. *)
Theorem calcNetwork_at_most_one `{MapRange} name (i : network_stats) :
  is_uint64 (RxBytes i) = true → is_uint64 (TxBytes i) = true →
  calcNetwork ∅ = (zero, zero)
  ∧ calcNetwork {[ name := i ]}
    = (float64_of_uint64 (RxBytes i), float64_of_uint64 (TxBytes i)).
Proof.
  intros Hr%is_uint64_range Ht%is_uint64_range. unfold calcNetwork.
  rewrite range_empty, range_singleton. split; [done|].
  cbn [foldl]. unfold calcNetwork_step, float64_of_uint64. cbn [snd].
  by rewrite !add_zero_l.
Qed.

(** With two interfaces the network totals are the float64 sums of the two
    converted counters and do not depend on the order of the loop, whatever
    the size of the counters: the order can only matter from three
    interfaces on. *)
Theorem calcNetwork_two_interfaces (R R' : MapRange) n1 n2 (i1 i2 : network_stats) :
  n1 ≠ n2 →
  is_uint64 (RxBytes i1) = true → is_uint64 (TxBytes i1) = true →
  is_uint64 (RxBytes i2) = true → is_uint64 (TxBytes i2) = true →
  @calcNetwork R (<[n1 := i1]> {[ n2 := i2 ]})
  = (add (float64_of_uint64 (RxBytes i1)) (float64_of_uint64 (RxBytes i2)),
     add (float64_of_uint64 (TxBytes i1)) (float64_of_uint64 (TxBytes i2)))
  ∧ @calcNetwork R' (<[n1 := i1]> {[ n2 := i2 ]})
    = @calcNetwork R (<[n1 := i1]> {[ n2 := i2 ]}).
Proof.
  intros Hne Hr1%is_uint64_range Ht1%is_uint64_range
    Hr2%is_uint64_range Ht2%is_uint64_range.
  assert (Hany : ∀ R0 : MapRange, @calcNetwork R0 (<[n1 := i1]> {[ n2 := i2 ]})
    = (add (float64_of_uint64 (RxBytes i1)) (float64_of_uint64 (RxBytes i2)),
       add (float64_of_uint64 (TxBytes i1)) (float64_of_uint64 (TxBytes i2)))).
  { intros R0. unfold calcNetwork.
    destruct (@range_pair R0 _ n1 n2 i1 i2 Hne) as [-> | ->]; cbn [foldl];
      unfold calcNetwork_step, float64_of_uint64; cbn [snd];
      rewrite !add_zero_l by done; [done|].
    by rewrite (add_comm_uint64 (RxBytes i2)), (add_comm_uint64 (TxBytes i2)). }
  split; [apply Hany|]. by rewrite !Hany.
Qed.

End Totals.

Lemma calcNetwork_at_most_one_witness :
  @calcNetwork range_forward ∅ = (Float64.zero, Float64.zero)
  ∧ @calcNetwork range_forward {[ "eth0" := {| RxBytes := 2 ^ 63; TxBytes := 1 |} ]}
    = (float64_of_uint64 (2 ^ 63), float64_of_uint64 1).
Proof.
  exact (calcNetwork_at_most_one (H := range_forward) "eth0"
           {| RxBytes := 2 ^ 63; TxBytes := 1 |} eq_refl eq_refl).
Defined.

Lemma calcNetwork_two_interfaces_witness :
  @calcNetwork range_forward
    (<["eth0" := {| RxBytes := 2 ^ 53; TxBytes := 3 |}]>
       {[ "lo" := {| RxBytes := 1; TxBytes := 4 |} ]})
  = (Float64.of_Z (2 ^ 53), Float64.of_Z 7)
  ∧ @calcNetwork range_backward
      (<["eth0" := {| RxBytes := 2 ^ 53; TxBytes := 3 |}]>
         {[ "lo" := {| RxBytes := 1; TxBytes := 4 |} ]})
    = @calcNetwork range_forward
        (<["eth0" := {| RxBytes := 2 ^ 53; TxBytes := 3 |}]>
           {[ "lo" := {| RxBytes := 1; TxBytes := 4 |} ]}).
Proof.
  exact (calcNetwork_two_interfaces range_forward range_backward "eth0" "lo"
           {| RxBytes := 2 ^ 53; TxBytes := 3 |} {| RxBytes := 1; TxBytes := 4 |}
           ltac:(done) eq_refl eq_refl eq_refl eq_refl).
Defined.

Lemma calcBlockIO_classification_witness :
  calcBlockIO (BlkioStats stats_sample)
  = calcBlockIO {| IoServiceBytesRecursive :=
      [ {| Op := "Read"; Value := 10 |}; {| Op := "Write"; Value := 20 |};
        {| Op := ""; Value := 5 |} ] |}.
Proof.
  refine (proj2 (proj2 (proj2 (calcBlockIO_classification
           [ {| Op := "Read"; Value := 10 |}; {| Op := "Write"; Value := 20 |};
             {| Op := ""; Value := 5 |} ]
           {| Op := "Total"; Value := 30 |} []))) "T"%char "otal" eq_refl _ _ _ _);
    discriminate.
Defined.

Lemma calcBlockIO_order_independent_witness :
  calcBlockIO {| IoServiceBytesRecursive :=
      [ {| Op := "Read"; Value := 2 ^ 63 |}; {| Op := "Write"; Value := 20 |} ] |}
  = calcBlockIO {| IoServiceBytesRecursive :=
      [ {| Op := "Write"; Value := 20 |}; {| Op := "Read"; Value := 2 ^ 63 |} ] |}.
Proof.
  apply calcBlockIO_order_independent. apply Permutation_swap.
Defined.

(** * What the entries of a result look like *)

Section ResultEntries.
Context (dc : Docker) `{MapRange}.

Lemma getLabels_done stats s' :
  outcome (getLabels dc stats) = Done s' →
  ∃ labels, s' = set_labels stats labels ∧ dom labels ⊆ output_names.
Proof.
  unfold getLabels, newDockerClient.
  destruct (ContainerInspect dc (ContainerID stats)) as [[[config|]] [e|]],
    (NewClientWithOpts dc) as [e'|]; go_step; cbn -[foldl dom]; try done;
    intros [= <-]; (eexists; split; [done|]);
    intros name [v Hv]%elem_of_dom;
    rewrite getLabels_loop_projection, kube_projection_lookup in Hv;
    unfold source_key, output_names in *;
    repeat case_decide; simplify_eq; set_solver.
Qed.

(** Every entry of a result of [List] is either the placeholder, with all
    fields zero and no label map, or an entry that went through label
    enrichment: its label map is present and its keys are among the three
    output names. *)
Theorem List_entries_shape stats :
  List_returns dc stats None →
  Forall (λ s, s = emptyEntry
               ∨ ∃ labels, EntryLabels s = Some labels
                           ∧ dom labels ⊆ output_names) stats.
Proof.
  inversion 1 as [|containers stats' Hlist Hall Hinter]; subst.
  rewrite (interleaving_perm _ _ Hinter). clear Hall Hinter Hlist.
  induction containers as [|c containers IH]; [done|].
  change (workers dc (c :: containers))
    with (worker dc (Container_ID c) :: workers dc containers).
  rewrite fmap_cons. cbn [concat]. apply Forall_app. split; [|done].
  rewrite worker_sent.
  assert (Hplace : ∀ err, Forall (λ s, s = emptyEntry
            ∨ ∃ labels, EntryLabels s = Some labels ∧ dom labels ⊆ output_names)
            (placeholder err))
    by (intros [e|]; repeat constructor).
  apply Forall_app. split; [apply Hplace|].
  destruct (outcome (getStats dc (ContainerStats dc (Container_ID c)).1))
    as [[s err]| |]; [|done..].
  apply Forall_app. split; [apply Hplace|].
  destruct (outcome (getLabels dc s)) as [s'| |] eqn:Hl; [|done..].
  apply getLabels_done in Hl as (labels & -> & Hdom).
  constructor; [|done]. right. by exists labels.
Qed.

End ResultEntries.

Lemma List_entries_shape_witness :
  Forall (λ s, s = emptyEntry
               ∨ ∃ labels, EntryLabels s = Some labels
                           ∧ dom labels ⊆ output_names)
    [entry_sample].
Proof.
  apply (List_entries_shape (dc_healthy "linux") (H := range_forward)).
  by apply List_healthy.
Defined.
